(** * Lunch-menu notifier: date resolution and retry polling

    A shallow embedding of [lunch_menu_playwright.py] (and of the functions
    it shares, line for line, with [lunch_menu.py]): [parse_date],
    [is_today], [scrape_menu] and the retry loop of [main].

    Conventions of the model.
    - A Python [str] is a list of Unicode code points ([list N]).  The
      regular expressions are [str] patterns, so [\d] is the Unicode
      category Nd and [\s] is Unicode whitespace; both tables are those of
      Unicode 14.0 (CPython 3.11).
    - Python exceptions are explicit: a computation of type [py A] either
      returns ([Ret]) or raises ([Raise]).
    - The wall clock is an input: [parse_date] receives the year that
      [datetime.now().year] reads (one reading for the whole call),
      [is_today] the date that [datetime.now().date()] reads.
    - The collaborators (browser, HTML parser, HTTP download, OCR engine)
      are black boxes: what they answer for one restaurant on one attempt
      is a [World] record.
    - Logging is not modelled, except that the retry loop records which of
      its three actions (sleep, notify, report no data) each attempt ends
      with. *)

From stdpp Require Import base numbers option list strings gmap.
From Stdlib Require Import ZArith NArith Ascii.
From Stdlib Require Sorting.Sorted.

Local Open Scope Z_scope.

(* ===================================================================== *)
(** * Python values                                                       *)
(* ===================================================================== *)

(** The exception classes that matter: [ValueError] is the one
    [parse_date] catches; [OtherError] stands for any other subclass of
    [Exception]. *)
Inductive exn := ValueError | IndexError | OtherError.

Inductive py (A : Type) : Type :=
| Ret (a : A)
| Raise (e : exn).
Arguments Ret {A} a.
Arguments Raise {A} e.

Definition py_bind {A B} (m : py A) (k : A -> py B) : py B :=
  match m with
  | Ret a => k a
  | Raise e => Raise e
  end.

Notation "x '<-py' m ';' k" := (py_bind m (fun x => k))
  (at level 100, m at next level, right associativity).

(** A [str]: its code points. *)
Notation text := (list N).

(** Reading a UTF-8 encoded literal as code points, so that texts can be
    written as string literals. *)
Fixpoint utf8_go (acc : N) (need : nat) (bs : list N) : text :=
  match bs with
  | [] => []
  | b :: bs' =>
      match need with
      | O =>
          if (b <? 0x80)%N then b :: utf8_go 0 0 bs'
          else if (b <? 0xE0)%N then utf8_go (b mod 0x20) 1 bs'
          else if (b <? 0xF0)%N then utf8_go (b mod 0x10) 2 bs'
          else utf8_go (b mod 0x08) 3 bs'
      | S O => (acc * 0x40 + b mod 0x40)%N :: utf8_go 0 0 bs'
      | S n => utf8_go (acc * 0x40 + b mod 0x40)%N n bs'
      end
  end.

Definition text_of (s : string) : text :=
  utf8_go 0 0 (map N_of_ascii (String.list_ascii_of_string s)).

(* ===================================================================== *)
(** * Character classes of [re] on [str] patterns                         *)
(* ===================================================================== *)

(** Category Nd: each entry is the code point of a digit zero and the
    length of the run that starts there; within a run the digit values
    cycle 0..9. *)
Definition Nd_ranges : list (N * N) :=
  [ (0x30, 10); (0x660, 10); (0x6f0, 10); (0x7c0, 10); (0x966, 10);
    (0x9e6, 10); (0xa66, 10); (0xae6, 10); (0xb66, 10); (0xbe6, 10);
    (0xc66, 10); (0xce6, 10); (0xd66, 10); (0xde6, 10); (0xe50, 10);
    (0xed0, 10); (0xf20, 10); (0x1040, 10); (0x1090, 10); (0x17e0, 10);
    (0x1810, 10); (0x1946, 10); (0x19d0, 10); (0x1a80, 10); (0x1a90, 10);
    (0x1b50, 10); (0x1bb0, 10); (0x1c40, 10); (0x1c50, 10); (0xa620, 10);
    (0xa8d0, 10); (0xa900, 10); (0xa9d0, 10); (0xa9f0, 10); (0xaa50, 10);
    (0xabf0, 10); (0xff10, 10); (0x104a0, 10); (0x10d30, 10); (0x11066, 10);
    (0x110f0, 10); (0x11136, 10); (0x111d0, 10); (0x112f0, 10);
    (0x11450, 10); (0x114d0, 10); (0x11650, 10); (0x116c0, 10);
    (0x11730, 10); (0x118e0, 10); (0x11950, 10); (0x11c50, 10);
    (0x11d50, 10); (0x11da0, 10); (0x16a60, 10); (0x16ac0, 10);
    (0x16b50, 10); (0x1d7ce, 50); (0x1e140, 10); (0x1e2f0, 10);
    (0x1e950, 10); (0x1fbf0, 10) ]%N.

(** [unicodedata.decimal]: the value of a decimal digit, if it is one. *)
Fixpoint decimal_in (rs : list (N * N)) (c : N) : option N :=
  match rs with
  | [] => None
  | (a, w) :: rs' =>
      if ((a <=? c) && (c <? a + w))%N then Some ((c - a) mod 10)%N
      else decimal_in rs' c
  end.

Definition decimal (c : N) : option N := decimal_in Nd_ranges c.

(** [\d] *)
Definition is_digit (c : N) : bool :=
  match decimal c with Some _ => true | None => false end.

(** [\s]: the code points for which [str.isspace] holds. *)
Definition whitespace : list N :=
  [ 0x9; 0xa; 0xb; 0xc; 0xd; 0x1c; 0x1d; 0x1e; 0x1f; 0x20; 0x85; 0xa0;
    0x1680; 0x2000; 0x2001; 0x2002; 0x2003; 0x2004; 0x2005; 0x2006;
    0x2007; 0x2008; 0x2009; 0x200a; 0x2028; 0x2029; 0x202f; 0x205f;
    0x3000 ]%N.

Definition is_space (c : N) : bool := existsb (N.eqb c) whitespace.

(** The three Hangul syllables of the patterns, and the two ASCII marks. *)
Definition NYEON : N := 0xB144.  (* 년 *)
Definition WOL : N := 0xC6D4.    (* 월 *)
Definition IL : N := 0xC77C.     (* 일 *)
Definition DOT : N := 0x2E.
Definition SLASH : N := 0x2F.

(* ===================================================================== *)
(** * The fragment of [re] the patterns use                               *)
(* ===================================================================== *)

(** A pattern is a sequence of atoms: a capturing group [(\d{lo,hi})], a
    literal character, or [\s*]. *)
Inductive atom :=
| Group (lo hi : nat)
| Lit (c : N)
| Spaces.

Notation pattern := (list atom).

(** Length of the longest prefix whose characters all satisfy [f]. *)
Fixpoint run_length (f : N -> bool) (s : text) : nat :=
  match s with
  | c :: s' => if f c then S (run_length f s') else O
  | [] => O
  end.

(** Greedy repetition with backtracking: try [n] repetitions, then
    [n - 1], ... down to [lo]; the first count for which the rest of the
    pattern matches is taken. *)
Fixpoint backtrack {A} (k : nat -> option A) (lo n : nat) : option A :=
  if (n <? lo)%nat then None
  else
    match k n with
    | Some r => Some r
    | None =>
        match n with
        | O => None
        | S n' => backtrack k lo n'
        end
    end.

(** Match the pattern at the start of [s]; the result is the list of the
    captured groups, in order. *)
Fixpoint match_here (p : pattern) (s : text) : option (list text) :=
  match p with
  | [] => Some []
  | Lit c :: p' =>
      match s with
      | x :: s' => if (x =? c)%N then match_here p' s' else None
      | [] => None
      end
  | Spaces :: p' =>
      backtrack (fun n => match_here p' (drop n s)) 0 (run_length is_space s)
  | Group lo hi :: p' =>
      backtrack (fun n => cons (take n s) <$> match_here p' (drop n s))
                lo (Nat.min hi (run_length is_digit s))
  end.

(** [re.search]: the match at the leftmost position where the pattern
    matches, or [None]. *)
Fixpoint search (p : pattern) (s : text) : option (list text) :=
  match match_here p s with
  | Some m => Some m
  | None =>
      match s with
      | [] => None
      | _ :: s' => search p s'
      end
  end.

(** [m.group(k)], for k >= 1. *)
Definition group (m : list text) (k : nat) : py text :=
  match m !! (k - 1)%nat with
  | Some g => Ret g
  | None => Raise IndexError
  end.

(** [int(s)] on the strings a group can hold.  A string of decimal digits
    is read in base ten; anything else is reported as [ValueError] (the
    sign, blank and underscore forms that [int] also reads are not
    modelled: no group can hold them). *)
Fixpoint int_digits (acc : Z) (s : text) : py Z :=
  match s with
  | [] => Ret acc
  | c :: s' =>
      match decimal c with
      | Some v => int_digits (10 * acc + Z.of_N v) s'
      | None => Raise ValueError
      end
  end.

Definition int (s : text) : py Z :=
  match s with
  | [] => Raise ValueError
  | _ => int_digits 0 s
  end.

(* ===================================================================== *)
(** * Calendar dates                                                      *)
(* ===================================================================== *)

(** The [datetime] values of the program all have time 00:00:00, so they
    are represented by their calendar date. *)
Record date := Date { year : Z; month : Z; day : Z }.

Global Instance date_eq_dec : EqDecision date.
Proof. solve_decision. Defined.

Definition is_leap (y : Z) : bool :=
  (y mod 4 =? 0) && (negb (y mod 100 =? 0) || (y mod 400 =? 0)).

Definition days_in_month (y m : Z) : Z :=
  if m =? 2 then (if is_leap y then 29 else 28)
  else if (m =? 4) || (m =? 6) || (m =? 9) || (m =? 11) then 30
  else 31.

Definition valid_date (y m d : Z) : bool :=
  (1 <=? y) && (y <=? 9999) && (1 <=? m) && (m <=? 12)
  && (1 <=? d) && (d <=? days_in_month y m).

(** The constructor [datetime(y, m, d)]: [ValueError] when a field is out
    of range. *)
Definition datetime (y m d : Z) : py date :=
  if valid_date y m d then Ret (Date y m d) else Raise ValueError.

(* ===================================================================== *)
(** * MenuScraper.parse_date and MenuScraper.is_today                     *)
(* ===================================================================== *)

(** [(\d{4})년\s*(\d{1,2})월\s*(\d{1,2})일] *)
Definition pat_full : pattern :=
  [Group 4 4; Lit NYEON; Spaces; Group 1 2; Lit WOL; Spaces; Group 1 2; Lit IL].
(** [(\d{1,2})월\s*(\d{1,2})일] *)
Definition pat_month_day : pattern :=
  [Group 1 2; Lit WOL; Spaces; Group 1 2; Lit IL].
(** [(\d{1,2})\.(\d{1,2})] *)
Definition pat_dotted : pattern := [Group 1 2; Lit DOT; Group 1 2].
(** [(\d{1,2})/(\d{1,2})] *)
Definition pat_slashed : pattern := [Group 1 2; Lit SLASH; Group 1 2].

(** The two constructors; [now_year] is what [datetime.now().year] reads. *)
Definition parser_full (now_year : Z) (m : list text) : py date :=
  g1 <-py group m 1; y <-py int g1;
  g2 <-py group m 2; mo <-py int g2;
  g3 <-py group m 3; d <-py int g3;
  datetime y mo d.

Definition parser_current_year (now_year : Z) (m : list text) : py date :=
  g1 <-py group m 1; mo <-py int g1;
  g2 <-py group m 2; d <-py int g2;
  datetime now_year mo d.

Notation parser := (Z -> list text -> py date).

Definition patterns : list (pattern * parser) :=
  [ (pat_full, parser_full);
    (pat_month_day, parser_current_year);
    (pat_dotted, parser_current_year);
    (pat_slashed, parser_current_year) ].

(** The loop [for pattern, parser in patterns]: [return date] on the first
    pattern that matches and constructs, [continue] on [ValueError]; any
    other exception would leave the function. *)
Fixpoint try_patterns (ps : list (pattern * parser)) (now_year : Z)
    (s : text) : py (option date) :=
  match ps with
  | [] => Ret None
  | (pat, parse) :: ps' =>
      match search pat s with
      | Some m =>
          match parse now_year m with
          | Ret d => Ret (Some d)
          | Raise ValueError => try_patterns ps' now_year s
          | Raise e => Raise e
          end
      | None => try_patterns ps' now_year s
      end
  end.

Definition parse_date (now_year : Z) (s : text) : py (option date) :=
  try_patterns patterns now_year s.

(** [is_today(date)]; [today] is what [datetime.now().date()] reads. *)
Definition is_today (today : date) (d : option date) : bool :=
  match d with
  | None => false
  | Some d => bool_decide (d = today)
  end.


(* ===================================================================== *)
(** * MenuScraper.scrape_menu                                             *)
(* ===================================================================== *)

(** [class Restaurant] *)
Record Restaurant := {
  name : string;
  url : string;
  channel_id : string;
  date_in_post : bool
}.

(** A downloaded [PIL.Image], opaque. *)
Inductive Image := PILImage (id : N).

(** The dictionary [scrape_menu] returns.  The key ['date'] holds the
    resolved date rendered by [strftime('%Y-%m-%d')], or the placeholder
    ['날짜 미확인'] when there is none: the model keeps the date itself. *)
Record MenuRecord := {
  r_restaurant : string;
  r_date : option date;
  r_is_today : bool;
  r_image_url : string;
  r_menu_text : text;
  r_image : Image
}.

(** What the OCR engine does inside [extract_text_from_image]. *)
Inductive ocr_outcome :=
| OcrSetupRaises (e : exn)      (* [init_ocr] or [preprocess_image] raises *)
| OcrReadRaises                 (* [reader.readtext] raises *)
| OcrReads (texts : list text). (* the recognised fragments *)

(** The answers of the collaborators for one restaurant on one attempt,
    and the clock readings of that scrape. *)
Record World := {
  page : option string;                 (* [fetch_page_with_playwright] *)
  found_image_url : py (option string); (* [extract_image_url] *)
  downloaded : option Image;            (* [download_image] *)
  post_title : py (option text);        (* [extract_post_date] *)
  ocr : ocr_outcome;
  year_at_title : Z;                    (* clock, parsing the post title *)
  year_at_ocr : Z;                      (* clock, parsing the OCR text *)
  today_at_check : date                 (* clock, in [is_today] *)
}.

(** ['\n'.join(texts)] *)
Fixpoint join (sep : text) (ts : list text) : text :=
  match ts with
  | [] => []
  | [t] => t
  | t :: ts' => t ++ sep ++ join sep ts'
  end.

(** [extract_text_from_image]: only [readtext] is inside the [try]; its
    failure is answered by the empty string. *)
Definition extract_text_from_image (o : ocr_outcome) : py text :=
  match o with
  | OcrSetupRaises e => Raise e
  | OcrReadRaises => Ret []
  | OcrReads texts => Ret (join [0xA%N] texts)
  end.

Definition scrape_menu (restaurant : Restaurant) (w : World)
    : py (option MenuRecord) :=
  (* 1. the page *)
  match page w with
  | None => Ret None
  | Some html =>
  if bool_decide (html = EmptyString) then Ret None else
  (* 2. the image URL *)
  found <-py found_image_url w;
  match found with
  | None => Ret None
  | Some image_url =>
  if bool_decide (image_url = EmptyString) then Ret None else
  (* 3. the image *)
  match downloaded w with
  | None => Ret None
  | Some image =>
  (* 4. the date of the post title *)
  menu_date <-py
    (if date_in_post restaurant then
       title <-py post_title w;
       match title with
       | Some (c :: t) => parse_date (year_at_title w) (c :: t)
       | Some [] | None => Ret None
       end
     else Ret None);
  (* 5. OCR *)
  ocr_text <-py extract_text_from_image (ocr w);
  menu_date <-py
    (if negb (date_in_post restaurant) || bool_decide (menu_date = None)
     then parse_date (year_at_ocr w) ocr_text
     else Ret menu_date);
  (* 6. today? *)
  let is_today_menu := is_today (today_at_check w) menu_date in
  Ret (Some {| r_restaurant := name restaurant;
               r_date := menu_date;
               r_is_today := is_today_menu;
               r_image_url := image_url;
               r_menu_text := ocr_text;
               r_image := image |})
  end end end.

(* ===================================================================== *)
(** * main: the retry loop                                                *)
(* ===================================================================== *)

(** The inner loop [for restaurant in restaurants]: a result is appended
    when [scrape_menu] returns one; [None] and any exception skip the
    restaurant. *)
Fixpoint scrape_all (restaurants : list Restaurant)
    (w : Restaurant -> World) : list MenuRecord :=
  match restaurants with
  | [] => []
  | restaurant :: rest =>
      match scrape_menu restaurant (w restaurant) with
      | Ret (Some result) => result :: scrape_all rest w
      | Ret None | Raise _ => scrape_all rest w
      end
  end.

(** What an attempt ends with. *)
Inductive action :=
| Sleep (seconds : Z)                     (* [time.sleep(RETRY_INTERVAL)] *)
| Notify (menu_results : list MenuRecord) (* [send_menu_notification] *)
| NoData.                                 (* only the error log line *)

(** One pass of the outer loop: its number, the value of [results] when
    the inner loop is over, and the action taken. *)
Record iteration := {
  it_attempt : nat;
  it_results : list MenuRecord;
  it_action : action
}.

(** [today_menus = [r for r in results if r and r['is_today']]] *)
Definition today_menus (results : list MenuRecord) : list MenuRecord :=
  List.filter r_is_today results.

(** The loop [for attempt in range(1, MAX_RETRIES + 1)], from [attempt]
    on, with [remaining] values of the range left.  [world k] gives the
    collaborators' answers during attempt [k]. *)
Fixpoint retry_loop (restaurants : list Restaurant)
    (world : nat -> Restaurant -> World) (max_retries : nat)
    (retry_interval : Z) (remaining attempt : nat) : list iteration :=
  match remaining with
  | O => []
  | S remaining' =>
      let results := scrape_all restaurants (world attempt) in
      match today_menus results with
      | _ :: _ =>
          [ {| it_attempt := attempt; it_results := results;
               it_action := Notify results |} ]
      | [] =>
          if (attempt <? max_retries)%nat then
            {| it_attempt := attempt; it_results := results;
               it_action := Sleep retry_interval |}
            :: retry_loop restaurants world max_retries retry_interval
                 remaining' (S attempt)
          else
            [ {| it_attempt := attempt; it_results := results;
                 it_action := match results with
                              | _ :: _ => Notify results
                              | [] => NoData
                              end |} ]
      end
  end.

Definition polling (restaurants : list Restaurant)
    (world : nat -> Restaurant -> World) (max_retries : nat)
    (retry_interval : Z) : list iteration :=
  retry_loop restaurants world max_retries retry_interval max_retries 1.

(** The environment variables of [main]. *)
Record Env := {
  SENDER_EMAIL : option string;
  SENDER_PASSWORD : option string;
  RECIPIENT_EMAIL : option string
}.

Definition unset (v : option string) : bool :=
  match v with
  | None => true
  | Some s => bool_decide (s = EmptyString)
  end.

Definition restaurants : list Restaurant :=
  [ {| name := "왕의밥상"; url := "https://pf.kakao.com/_kSxlln/posts";
       channel_id := "_kSxlln"; date_in_post := true |};
    {| name := "착한한식뷔페"; url := "https://pf.kakao.com/_xgPnnn/posts";
       channel_id := "_xgPnnn"; date_in_post := true |};
    {| name := "원테이블"; url := "https://pf.kakao.com/_gVFMn";
       channel_id := "_gVFMn"; date_in_post := false |} ].

Definition MAX_RETRIES : nat := 6.
Definition RETRY_INTERVAL : Z := 15 * 60.

Definition main (env : Env) (world : nat -> Restaurant -> World)
    : list iteration :=
  if unset (SENDER_EMAIL env) || unset (SENDER_PASSWORD env)
     || unset (RECIPIENT_EMAIL env)
  then []
  else polling restaurants world MAX_RETRIES RETRY_INTERVAL.

(* ===================================================================== *)
(** * Notions of the specification                                        *)
(* ===================================================================== *)


(** An attempt that found no menu of today and is followed by a sleep. *)
Definition slept (rs : list Restaurant) (world : nat -> Restaurant -> World)
    (retry_interval : Z) (k : nat) : iteration :=
  {| it_attempt := k; it_results := scrape_all rs (world k);
     it_action := Sleep retry_interval |}.

(** The aggregation the specification describes (4.4, step 2), in its
    words: for each restaurant the latest record ever seen across the
    attempts so far, a new record replacing the old one and a skip keeping
    the previous one.  [spec_aggregate rs world k] is that set after the
    attempts 1..k. *)
Definition spec_replace (agg : gmap string MenuRecord)
    (results : list MenuRecord) : gmap string MenuRecord :=
  foldl (fun m r => <[r_restaurant r := r]> m) agg results.

Fixpoint spec_aggregate (rs : list Restaurant)
    (world : nat -> Restaurant -> World) (k : nat)
    : gmap string MenuRecord :=
  match k with
  | O => ∅
  | S k' => spec_replace (spec_aggregate rs world k')
              (scrape_all rs (world (S k')))
  end.

(** Worlds used in the examples. *)
Definition feb5 : date := Date 2026 2 5.

Definition posted (title : string) (fragments : list string) : World :=
  {| page := Some "<html>"%string;
     found_image_url := Ret (Some "https://img.example/menu.jpg"%string);
     downloaded := Some (PILImage 1);
     post_title := Ret (Some (text_of title));
     ocr := OcrReads (map text_of fragments);
     year_at_title := 2026; year_at_ocr := 2026; today_at_check := feb5 |}.

Definition unreachable : World :=
  {| page := None;
     found_image_url := Ret None;
     downloaded := None;
     post_title := Ret None;
     ocr := OcrReads [];
     year_at_title := 2026; year_at_ocr := 2026; today_at_check := feb5 |}.

Definition configured : Env :=
  {| SENDER_EMAIL := Some "sender@example.com"%string;
     SENDER_PASSWORD := Some "secret"%string;
     RECIPIENT_EMAIL := Some "reader@example.com"%string |}.


(** Two records and two runs used in the examples.  In the first run
    왕의밥상 shows yesterday's menu on attempt 1 and cannot be reached
    afterwards, while 원테이블 shows today's menu from attempt 2 on.  In
    the second run 왕의밥상 shows yesterday's menu on attempt 1 and
    nothing can be reached afterwards. *)
Definition stale_record : MenuRecord :=
  {| r_restaurant := "왕의밥상";
     r_date := Some (Date 2026 2 4);
     r_is_today := false;
     r_image_url := "https://img.example/menu.jpg";
     r_menu_text := text_of "제육볶음" ++ [0xA%N] ++ text_of "된장국";
     r_image := PILImage 1 |}.

Definition fresh_record : MenuRecord :=
  {| r_restaurant := "원테이블";
     r_date := Some (Date 2026 2 5);
     r_is_today := true;
     r_image_url := "https://img.example/menu.jpg";
     r_menu_text := text_of "2월 5일 (목)" ++ [0xA%N] ++ text_of "비빔밥";
     r_image := PILImage 1 |}.

Definition world_stale_then_fresh (attempt : nat) (r : Restaurant) : World :=
  if (attempt =? 1)%nat then
    if String.eqb (name r) "왕의밥상"
    then posted "2026년 02월 04일 점심메뉴" ["제육볶음"; "된장국"]
    else unreachable
  else
    if String.eqb (name r) "원테이블"
    then posted "" ["2월 5일 (목)"; "비빔밥"]
    else unreachable.

Definition world_stale_then_nothing (attempt : nat) (r : Restaurant)
    : World :=
  if (attempt =? 1)%nat then
    if String.eqb (name r) "왕의밥상"
    then posted "2026년 02월 04일 점심메뉴" ["제육볶음"; "된장국"]
    else unreachable
  else unreachable.

(** The OCR read raises while everything else succeeds. *)
Definition world_ocr_read_fails : World :=
  {| page := Some "<html>"%string;
     found_image_url := Ret (Some "https://img.example/menu.jpg"%string);
     downloaded := Some (PILImage 1);
     post_title := Ret (Some (text_of "2026년 02월 05일 점심메뉴"));
     ocr := OcrReadRaises;
     year_at_title := 2026; year_at_ocr := 2026; today_at_check := feb5 |}.

Definition wang : Restaurant :=
  {| name := "왕의밥상"; url := "https://pf.kakao.com/_kSxlln/posts";
     channel_id := "_kSxlln"; date_in_post := true |}.

(** The image cannot be downloaded; the OCR engine cannot be set up. *)
Definition world_download_fails : World :=
  {| page := Some "<html>"%string;
     found_image_url := Ret (Some "https://img.example/menu.jpg"%string);
     downloaded := None;
     post_title := Ret (Some (text_of "2026년 02월 05일 점심메뉴"));
     ocr := OcrReads [];
     year_at_title := 2026; year_at_ocr := 2026; today_at_check := feb5 |}.

Definition world_ocr_setup_fails : World :=
  {| page := Some "<html>"%string;
     found_image_url := Ret (Some "https://img.example/menu.jpg"%string);
     downloaded := Some (PILImage 1);
     post_title := Ret (Some (text_of "2026년 02월 05일 점심메뉴"));
     ocr := OcrSetupRaises OtherError;
     year_at_title := 2026; year_at_ocr := 2026; today_at_check := feb5 |}.

(** The record produced when the OCR read fails under a dated title. *)
Definition textless_record : MenuRecord :=
  {| r_restaurant := "왕의밥상";
     r_date := Some (Date 2026 2 5);
     r_is_today := true;
     r_image_url := "https://img.example/menu.jpg";
     r_menu_text := [];
     r_image := PILImage 1 |}.

(** The last pass of the first run. *)
Definition notified_fresh : iteration :=
  {| it_attempt := 2; it_results := [fresh_record];
     it_action := Notify [fresh_record] |}.

(** The two outcomes a constructor has on the groups of a match: a date,
    or [ValueError]. *)
Definition ret_or_ValueError (r : py date) : Prop :=
  r = Raise ValueError \/ exists d, r = Ret d.

(** A pattern yields nothing on a text when it does not match, or when
    the constructor rejects its leftmost match. *)
Definition yields_nothing (now : Z) (s : text) (pp : pattern * parser)
    : Prop :=
  search (fst pp) s = None
  \/ exists m, search (fst pp) s = Some m /\ snd pp now m = Raise ValueError.

(** Shapes of text and of groups, as decidable predicates. *)
Definition digits (lo hi : nat) (g : text) : bool :=
  (lo <=? length g)%nat && (length g <=? hi)%nat && forallb is_digit g.

Definition blanks (sp : text) : bool := forallb is_space sp.

(** One occurrence of the full date, and of the month-day form. *)
Definition full_occurrence (ys sp1 ms sp2 ds : text) : text :=
  ys ++ NYEON :: sp1 ++ ms ++ WOL :: sp2 ++ ds ++ [IL].

Definition month_day_occurrence (ms sp ds : text) : text :=
  ms ++ WOL :: sp ++ ds ++ [IL].

(** One occurrence of the dotted and of the slashed form. *)
Definition dotted_occurrence (ms ds : text) : text := ms ++ DOT :: ds.

Definition slashed_occurrence (ms ds : text) : text := ms ++ SLASH :: ds.

(** The last group of such an occurrence stops where [g] stops: [g] has
    two digits already, or no digit follows it. *)
Definition group_ends (g post : text) : bool :=
  (length g =? 2)%nat
  || match post with
     | [] => true
     | c :: _ => negb (is_digit c)
     end.

(** The capturing groups of a pattern, as their bounds. *)
Fixpoint group_bounds (p : pattern) : list (nat * nat) :=
  match p with
  | [] => []
  | Group lo hi :: p' => (lo, hi) :: group_bounds p'
  | _ :: p' => group_bounds p'
  end.

(* ===================================================================== *)
(** * The rest of the scraper and of the notifier                         *)
(* ===================================================================== *)

Definition LPAREN : N := 0x28.
Definition RPAREN : N := 0x29.
Definition NEWLINE : N := 0xA.
Definition SEMICOLON : N := 0x3B.

(** [prefix_rest lit s]: what follows [lit] when [s] starts with it. *)
Fixpoint prefix_rest (lit s : text) : option text :=
  match lit with
  | [] => Some s
  | c :: lit' =>
      match s with
      | x :: s' => if (x =? c)%N then prefix_rest lit' s' else None
      | [] => None
      end
  end.

(** [lit in s] *)
Fixpoint contains (lit s : text) : bool :=
  match prefix_rest lit s with
  | Some _ => true
  | None =>
      match s with
      | [] => false
      | _ :: s' => contains lit s'
      end
  end.

(** ** extract_image_url, the post branch: [re.search] of the pattern
       [url\(Q?(.*?)Q?\)], where Q is the class of the double and the
       single quote, in the [style] attribute *)

(** The class Q. *)
Definition is_quote (c : N) : bool := (c =? 0x22)%N || (c =? 0x27)%N.

(** [\)] at the start of [s]. *)
Definition at_rparen (s : text) : bool :=
  match s with
  | c :: _ => (c =? RPAREN)%N
  | [] => false
  end.

(** The tail [Q?\)] of the pattern at the start of [s]: the optional
    quote is greedy, taken first and given back if [\)] does not follow. *)
Definition match_close (s : text) : bool :=
  match s with
  | c :: s' => (is_quote c && at_rparen s') || at_rparen s
  | [] => false
  end.

(** The lazy group [(.*?)] followed by the tail: the shortest run of
    characters other than the newline after which the tail matches. *)
Fixpoint lazy_until_close (s : text) : option text :=
  if match_close s then Some []
  else
    match s with
    | c :: s' =>
        if (c =? NEWLINE)%N then None else cons c <$> lazy_until_close s'
    | [] => None
    end.

(** The whole pattern at the start of [s]; the result is group 1.  The
    optional opening quote is greedy as well. *)
Definition match_url_here (s : text) : option text :=
  match prefix_rest (text_of "url(") s with
  | Some s1 =>
      match
        match s1 with
        | q :: s2 => if is_quote q then lazy_until_close s2 else None
        | [] => None
        end
      with
      | Some g => Some g
      | None => lazy_until_close s1
      end
  | None => None
  end.

Fixpoint search_url (s : text) : option text :=
  match match_url_here s with
  | Some g => Some g
  | None =>
      match s with
      | [] => None
      | _ :: s' => search_url s'
      end
  end.

(** The branch of [extract_image_url] for the restaurants other than
    원테이블.  [style] is the [style] attribute of the first
    [div.wrap_fit_thumb] of the page ([None] when there is no such div or
    it has no such attribute), passed through [html.unescape] in the
    Playwright version. *)
Definition post_image_url (style : option text) : option text :=
  match style with
  | Some style => search_url style
  | None => None
  end.

(** ** extract_image_url of lunch_menu.py, the 원테이블 branch:
       [re.search(r'fname=(.*?)$', src)] *)

(** [$]: the end of the string, or just before a newline that ends it. *)
Definition at_end (s : text) : bool :=
  match s with
  | [] => true
  | [c] => (c =? NEWLINE)%N
  | _ => false
  end.

Fixpoint lazy_until_end (s : text) : option text :=
  if at_end s then Some []
  else
    match s with
    | c :: s' =>
        if (c =? NEWLINE)%N then None else cons c <$> lazy_until_end s'
    | [] => None
    end.

Definition match_fname_here (s : text) : option text :=
  match prefix_rest (text_of "fname=") s with
  | Some s1 => lazy_until_end s1
  | None => None
  end.

Fixpoint search_fname (s : text) : option text :=
  match match_fname_here s with
  | Some g => Some g
  | None =>
      match s with
      | [] => None
      | _ :: s' => search_fname s'
      end
  end.

(** [src] is the [src] attribute of the profile image tag ([None] when
    the tag is missing or has no such attribute); [unquote] is
    [urllib.parse.unquote]. *)
Definition profile_image_url (unquote : text -> text) (src : option text)
    : option text :=
  match src with
  | Some src =>
      if contains (text_of "fname=") src then
        match search_fname src with
        | Some g => Some (unquote g)
        | None => Some src
        end
      else Some src
  | None => None
  end.

(** ** extract_post_date: [title_tag.text.strip()] *)

(** [str.lstrip()], [str.rstrip()] and [str.strip()] without argument. *)
Fixpoint lstrip (s : text) : text :=
  match s with
  | c :: s' => if is_space c then lstrip s' else s
  | [] => []
  end.

Definition rstrip (s : text) : text := rev (lstrip (rev s)).

Definition strip (s : text) : text := rstrip (lstrip s).

(** [title_text] is the text of the first [strong.tit_card] of the page,
    if there is one. *)
Definition extract_post_date (title_text : option text) : option text :=
  match title_text with
  | Some t => Some (strip t)
  | None => None
  end.

(** ** send_menu_notification: the image subtype *)

(** [s.split(sep, 1)[1]] when [sep] occurs in [s], and [s.split(sep)[0]]. *)
Fixpoint after_first (sep : N) (s : text) : text :=
  match s with
  | c :: s' => if (c =? sep)%N then s' else after_first sep s'
  | [] => []
  end.

Fixpoint before_first (sep : N) (s : text) : text :=
  match s with
  | c :: s' => if (c =? sep)%N then [] else c :: before_first sep s'
  | [] => []
  end.

(** The subtype read off the value of the [Content-Type] header. *)
Definition mime_subtype (content_type : text) : text :=
  if existsb (N.eqb SLASH) content_type
  then strip (before_first SEMICOLON (after_first SLASH content_type))
  else text_of "jpeg".

(** [response.headers.get('Content-Type', 'image/jpeg')] *)
Definition content_type_of (header : option text) : text :=
  match header with
  | Some v => v
  | None => text_of "image/jpeg"
  end.

(** ** send_menu_notification: the two lists and the attachments.
    The HTML text of the message is not modelled; what is modelled is
    which records go to which part, which images are attached and under
    which Content-ID. *)

(** [old_menus = [m for m in menu_results if m and not m['is_today']]] *)
Definition old_menus (menu_results : list MenuRecord) : list MenuRecord :=
  List.filter (fun m => negb (r_is_today m)) menu_results.

(** [if not today_menus and not old_menus]: the paragraph that says no
    menu was found. *)
Definition not_found_shown (menu_results : list MenuRecord) : bool :=
  match today_menus menu_results, old_menus menu_results with
  | [], [] => true
  | _, _ => false
  end.

(** [menu['menu_text'][:1000]] *)
Definition shown_text (menu : MenuRecord) : text :=
  take 1000 (r_menu_text menu).

(** The answer to [requests.get(menu['image_url'], timeout=10)] when it
    neither raises nor has an error status. *)
Record Response := {
  content_type : option text;  (* the Content-Type header, if present *)
  content : list N             (* the body *)
}.

(** An attached [MIMEImage] with its [Content-ID] header [<image{i}>]. *)
Record Attachment := {
  content_id : nat;
  subtype : text;
  payload : list N
}.

(** The loop [for i, menu in enumerate(today_menus)], from index [i] on.
    [fetch i menu] is the answer to the download for the [i]-th block,
    [None] when [requests.get] or [raise_for_status] raises (the
    exception is caught and nothing is attached for that block). *)
Fixpoint attach_images (fetch : nat -> MenuRecord -> option Response)
    (i : nat) (today : list MenuRecord) : list Attachment :=
  match today with
  | [] => []
  | menu :: rest =>
      match fetch i menu with
      | Some response =>
          {| content_id := i;
             subtype := mime_subtype (content_type_of (content_type response));
             payload := content response |}
          :: attach_images fetch (S i) rest
      | None => attach_images fetch (S i) rest
      end
  end.

Definition attachments (fetch : nat -> MenuRecord -> option Response)
    (menu_results : list MenuRecord) : list Attachment :=
  attach_images fetch 0 (today_menus menu_results).

(** ** main of lunch_menu.py: one pass, no retry.  The result is what the
    run does after scraping: nothing when a variable is missing, the
    notification when there are results, else only the warning. *)
Definition lunch_menu_main (env : Env) (world : Restaurant -> World)
    : list action :=
  if unset (SENDER_EMAIL env) || unset (SENDER_PASSWORD env)
     || unset (RECIPIENT_EMAIL env)
  then []
  else
    let results := scrape_all restaurants world in
    match results with
    | _ :: _ => [Notify results]
    | [] => [NoData]
    end.

(** ** Measures and shapes used in the statements *)

(** The seconds slept in a run. *)
Definition sleep_seconds (a : action) : Z :=
  match a with
  | Sleep seconds => seconds
  | _ => 0
  end.

Definition total_sleep (run : list iteration) : Z :=
  foldr (fun it acc => sleep_seconds (it_action it) + acc) 0 run.

(** A text that neither starts nor ends with whitespace. *)
Definition trimmed (t : text) : bool :=
  match t with
  | [] => true
  | c :: _ => negb (is_space c)
  end
  && match last t with
     | Some c => negb (is_space c)
     | None => true
     end.

(** An optional quote: nothing, or one quote character. *)
Definition optional_quote (q : text) : bool :=
  match q with
  | [] => true
  | [c] => is_quote c
  | _ => false
  end.

(** A URL the pattern can give back whole: no closing parenthesis and no
    newline in it, no quote at its start or at its end. *)
Definition capturable (u : text) : bool :=
  forallb (fun c => negb (c =? RPAREN)%N && negb (c =? NEWLINE)%N) u
  && match u with
     | [] => true
     | c :: _ => negb (is_quote c)
     end
  && match last u with
     | Some c => negb (is_quote c)
     | None => true
     end.

(** The same world with another answer of [extract_post_date]. *)
Definition with_post_title (w : World) (t : py (option text)) : World :=
  {| page := page w; found_image_url := found_image_url w;
     downloaded := downloaded w; post_title := t; ocr := ocr w;
     year_at_title := year_at_title w; year_at_ocr := year_at_ocr w;
     today_at_check := today_at_check w |}.

(** Two characters that read alike: the same character, or two decimal
    digits (possibly of different scripts) of the same value. *)
Definition same_digit (c c' : N) : Prop :=
  c = c' \/ (is_digit c = true /\ decimal c = decimal c').

(** Two texts that differ only in the script of their digits. *)
Definition same_reading (s s' : text) : Prop := Forall2 same_digit s s'.

(** Matches on two such texts: both fail, or both succeed with groups
    that read alike. *)
Definition same_match (r r' : option (list text)) : Prop :=
  match r, r' with
  | Some m, Some m' => Forall2 same_reading m m'
  | None, None => True
  | _, _ => False
  end.

(* ===================================================================== *)
(** * Character classes                                                   *)
(* ===================================================================== *)

Lemma is_space_whitespace c : is_space c = true -> In c whitespace.
Proof.
  unfold is_space. rewrite existsb_exists.
  intros (x & Hx & Heq). apply N.eqb_eq in Heq. now subst.
Qed.

Lemma space_not_digit c : is_space c = true -> is_digit c = false.
Proof.
  intros H. apply is_space_whitespace in H.
  unfold whitespace in H. simpl in H.
  repeat (destruct H as [<- | H]; [vm_compute; reflexivity |]).
  contradiction.
Qed.

Lemma digit_not_space c : is_digit c = true -> is_space c = false.
Proof.
  intros Hd. destruct (is_space c) eqn:Hs; [| reflexivity].
  apply space_not_digit in Hs. congruence.
Qed.

Lemma marks_not_digit :
  is_digit NYEON = false /\ is_digit WOL = false /\ is_digit IL = false
  /\ is_digit DOT = false /\ is_digit SLASH = false.
Proof. vm_compute. repeat split. Qed.

(* ===================================================================== *)
(** * The matcher                                                         *)
(* ===================================================================== *)

Section Backtrack.
Context {A : Type} (k : nat -> option A).

Lemma backtrack_first lo n r :
  (lo <= n)%nat -> k n = Some r -> backtrack k lo n = Some r.
Proof.
  intros Hle Hk. destruct n; simpl.
  - destruct (Nat.ltb_spec 0 lo); [lia |]. now rewrite Hk.
  - destruct (Nat.ltb_spec (S n) lo); [lia |]. now rewrite Hk.
Qed.

Lemma backtrack_below lo n : (n < lo)%nat -> backtrack k lo n = None.
Proof.
  intros Hlt. destruct n; simpl.
  - destruct (Nat.ltb_spec 0 lo); [reflexivity | lia].
  - destruct (Nat.ltb_spec (S n) lo); [reflexivity | lia].
Qed.

Lemma backtrack_Some lo n r :
  backtrack k lo n = Some r ->
  exists i, (lo <= i <= n)%nat /\ k i = Some r.
Proof.
  induction n as [| n IH]; simpl.
  - destruct (Nat.ltb_spec 0 lo); [discriminate |].
    destruct (k 0%nat) eqn:Hk; [| discriminate].
    intros [= <-]. exists 0%nat. split; [lia | assumption].
  - destruct (Nat.ltb_spec (S n) lo); [discriminate |].
    destruct (k (S n)) eqn:Hk.
    + intros [= <-]. exists (S n). split; [lia | assumption].
    + intros Hb. destruct (IH Hb) as (i & Hi & Hki).
      exists i. split; [lia | assumption].
Qed.
End Backtrack.

Lemma run_length_le f s : (run_length f s <= length s)%nat.
Proof. induction s as [| c s IH]; simpl; [lia |]. destruct (f c); simpl; lia. Qed.

Lemma run_length_take f s n :
  (n <= run_length f s)%nat -> forallb f (take n s) = true.
Proof.
  revert n. induction s as [| c s IH]; intros n Hn; simpl in *.
  - now rewrite take_nil.
  - destruct n as [| n]; [reflexivity |]. simpl.
    destruct (f c); [| lia]. simpl. apply IH. lia.
Qed.

Lemma run_length_app f g rest :
  forallb f g = true ->
  (match rest with [] => true | c :: _ => negb (f c) end) = true ->
  run_length f (g ++ rest) = length g.
Proof.
  intros Hg Hrest. induction g as [| c g IH]; simpl in *.
  - destruct rest as [| c rest]; [reflexivity |]. simpl.
    now destruct (f c).
  - apply andb_true_iff in Hg as [-> Hg]. f_equal. now apply IH.
Qed.


Lemma digits_spec lo hi g :
  digits lo hi g = true <->
  (lo <= length g <= hi)%nat /\ forallb is_digit g = true.
Proof.
  unfold digits. rewrite !andb_true_iff, !Nat.leb_le. tauto.
Qed.

(** A group followed by a character that is no digit captures exactly the
    digits before it, at the first try. *)
Lemma match_group_exact lo hi p g rest m :
  digits lo hi g = true ->
  (match rest with [] => true | c :: _ => negb (is_digit c) end) = true ->
  match_here p rest = Some m ->
  match_here (Group lo hi :: p) (g ++ rest) = Some (g :: m).
Proof.
  intros Hg Hrest Hm. apply digits_spec in Hg as [Hlen Hdig].
  simpl. rewrite (run_length_app _ _ _ Hdig Hrest).
  rewrite Nat.min_r by lia.
  apply backtrack_first; [lia |].
  rewrite take_app_length, drop_app_length, Hm. reflexivity.
Qed.

(** [\s*] followed by a character that is no blank skips exactly the
    blanks before it, at the first try. *)
Lemma match_spaces_exact p sp rest m :
  blanks sp = true ->
  (match rest with [] => true | c :: _ => negb (is_space c) end) = true ->
  match_here p rest = Some m ->
  match_here (Spaces :: p) (sp ++ rest) = Some m.
Proof.
  intros Hsp Hrest Hm. simpl.
  rewrite (run_length_app _ _ _ Hsp Hrest).
  apply backtrack_first; [lia |].
  now rewrite drop_app_length.
Qed.

Lemma match_lit c p rest :
  match_here (Lit c :: p) (c :: rest) = match_here p rest.
Proof. simpl. now rewrite N.eqb_refl. Qed.

(** What a match captures: one string per group, made of digits, of a
    length within the bounds of the group. *)
Lemma match_here_groups p : forall s m,
  match_here p s = Some m ->
  Forall2 (fun b g => digits (fst b) (snd b) g = true) (group_bounds p) m.
Proof.
  induction p as [| a p IH]; intros s m H; simpl in H.
  - injection H as <-. constructor.
  - destruct a as [lo hi | c |]; simpl.
    + apply backtrack_Some in H as (i & Hi & Hk).
      destruct (match_here p (drop i s)) as [m' |] eqn:Hm'; [| discriminate].
      injection Hk as <-. constructor; [| now apply (IH _ _ Hm')].
      simpl. apply digits_spec.
      pose proof (run_length_le is_digit s) as Hrl.
      rewrite length_take. split; [lia |].
      apply run_length_take. lia.
    + destruct s as [| x s]; [discriminate |].
      destruct (x =? c)%N; [| discriminate]. now apply (IH _ _ H).
    + apply backtrack_Some in H as (i & _ & Hk). now apply (IH _ _ Hk).
Qed.

(** A match contains every literal character of the pattern. *)
Lemma match_here_lit p c : forall s m,
  match_here p s = Some m -> In (Lit c) p -> In c s.
Proof.
  induction p as [| a p IH]; intros s m H Hin; [destruct Hin |].
  simpl in H. destruct a as [lo hi | c' |].
  - destruct Hin as [Heq | Hin]; [discriminate |].
    apply backtrack_Some in H as (i & _ & Hk).
    destruct (match_here p (drop i s)) as [m' |] eqn:Hm'; [| discriminate].
    specialize (IH _ _ Hm' Hin).
    rewrite <- (take_drop i s). apply in_or_app. now right.
  - destruct s as [| x s]; [discriminate |].
    destruct (N.eqb_spec x c'); [| discriminate]. subst x.
    destruct Hin as [[= ->] | Hin]; [now left |].
    right. now apply (IH _ _ H).
  - destruct Hin as [Heq | Hin]; [discriminate |].
    apply backtrack_Some in H as (i & _ & Hk).
    specialize (IH _ _ Hk Hin).
    rewrite <- (take_drop i s). apply in_or_app. now right.
Qed.

(** A pattern that starts with a group of at least one digit matches only
    where a digit stands. *)
Lemma match_here_needs_digit lo hi p s :
  (1 <= lo)%nat ->
  (match s with [] => true | c :: _ => negb (is_digit c) end) = true ->
  match_here (Group lo hi :: p) s = None.
Proof.
  intros Hlo Hs. simpl.
  assert (run_length is_digit s = 0%nat) as ->.
  { destruct s as [| c s]; [reflexivity |]. simpl.
    now destruct (is_digit c). }
  rewrite Nat.min_0_r. apply backtrack_below. lia.
Qed.

(** [search] is the leftmost match. *)
Lemma search_Some p : forall s m,
  search p s = Some m ->
  exists i, (i <= length s)%nat /\ match_here p (drop i s) = Some m
            /\ forall j, (j < i)%nat -> match_here p (drop j s) = None.
Proof.
  induction s as [| c s IH]; intros m H; simpl in H.
  - destruct (match_here p []) eqn:Hm; [| discriminate].
    injection H as <-. exists 0%nat. simpl. repeat split; [lia | assumption | lia].
  - destruct (match_here p (c :: s)) eqn:Hm.
    + injection H as <-. exists 0%nat. simpl.
      repeat split; [lia | assumption | lia].
    + destruct (IH _ H) as (i & Hi & Hmi & Hlt).
      exists (S i). simpl. repeat split; [lia | assumption |].
      intros [| j] Hj; [assumption |]. simpl. apply Hlt. lia.
Qed.

Lemma search_leftmost p pre : forall rest m,
  (forall j, (j < length pre)%nat ->
             match_here p (drop j (pre ++ rest)) = None) ->
  match_here p rest = Some m ->
  search p (pre ++ rest) = Some m.
Proof.
  induction pre as [| c pre IH]; intros rest m Hno Hm; simpl.
  - destruct rest; simpl; now rewrite Hm.
  - pose proof (Hno 0%nat ltac:(simpl; lia)) as H0. simpl in H0.
    rewrite H0. apply IH; [| assumption].
    intros j Hj. apply (Hno (S j)). simpl. lia.
Qed.

Lemma search_None p : forall s,
  (forall j, (j <= length s)%nat -> match_here p (drop j s) = None) ->
  search p s = None.
Proof.
  induction s as [| c s IH]; intros Hno; simpl.
  - pose proof (Hno 0%nat ltac:(simpl; lia)) as H0. simpl in H0.
    now rewrite H0.
  - pose proof (Hno 0%nat ltac:(simpl; lia)) as H0. simpl in H0.
    rewrite H0. apply IH. intros j Hj. apply (Hno (S j)). simpl. lia.
Qed.

Lemma search_groups p s m :
  search p s = Some m ->
  Forall2 (fun b g => digits (fst b) (snd b) g = true) (group_bounds p) m.
Proof.
  intros H. apply search_Some in H as (i & _ & Hm & _).
  now apply (match_here_groups _ _ _ Hm).
Qed.

Lemma search_lit p c s m : search p s = Some m -> In (Lit c) p -> In c s.
Proof.
  intros H Hin. apply search_Some in H as (i & _ & Hm & _).
  pose proof (match_here_lit _ _ _ _ Hm Hin) as Hc.
  rewrite <- (take_drop i s). apply in_or_app. now right.
Qed.

(** Without a digit in the text, a pattern that starts with a group of at
    least one digit matches nowhere. *)
Lemma search_no_digit lo hi p s :
  (1 <= lo)%nat -> forallb (fun c => negb (is_digit c)) s = true ->
  search (Group lo hi :: p) s = None.
Proof.
  intros Hlo Hs. apply search_None. intros j _.
  apply match_here_needs_digit; [assumption |].
  destruct (drop j s) as [| c t] eqn:Hd; [reflexivity |].
  rewrite forallb_forall in Hs. apply Hs.
  rewrite <- (take_drop j s), Hd. apply in_or_app. right. now left.
Qed.


(* ===================================================================== *)
(** * Occurrences of the date forms                                       *)
(* ===================================================================== *)

Lemma digits_head_not_space lo hi g tail :
  (1 <= lo)%nat -> digits lo hi g = true ->
  (match g ++ tail with [] => true | c :: _ => negb (is_space c) end) = true.
Proof.
  intros Hlo Hg. apply digits_spec in Hg as [Hlen Hdig].
  destruct g as [| c g]; simpl in *; [lia |].
  apply andb_true_iff in Hdig as [Hc _].
  now rewrite (digit_not_space _ Hc).
Qed.

Lemma match_full_occurrence ys sp1 ms sp2 ds post :
  digits 4 4 ys = true -> blanks sp1 = true -> digits 1 2 ms = true ->
  blanks sp2 = true -> digits 1 2 ds = true ->
  match_here pat_full (full_occurrence ys sp1 ms sp2 ds ++ post)
  = Some [ys; ms; ds].
Proof.
  intros Hys Hsp1 Hms Hsp2 Hds.
  unfold full_occurrence, pat_full.
  repeat (rewrite <- ?app_assoc; cbn [app]).
  apply match_group_exact; [assumption | reflexivity |].
  rewrite match_lit.
  apply match_spaces_exact;
    [assumption | now apply (digits_head_not_space 1 2) |].
  apply match_group_exact; [assumption | reflexivity |].
  rewrite match_lit.
  apply match_spaces_exact;
    [assumption | now apply (digits_head_not_space 1 2) |].
  apply match_group_exact; [assumption | reflexivity |].
  rewrite match_lit. reflexivity.
Qed.

Lemma match_month_day_occurrence ms sp ds post :
  digits 1 2 ms = true -> blanks sp = true -> digits 1 2 ds = true ->
  match_here pat_month_day (month_day_occurrence ms sp ds ++ post)
  = Some [ms; ds].
Proof.
  intros Hms Hsp Hds.
  unfold month_day_occurrence, pat_month_day.
  repeat (rewrite <- ?app_assoc; cbn [app]).
  apply match_group_exact; [assumption | reflexivity |].
  rewrite match_lit.
  apply match_spaces_exact;
    [assumption | now apply (digits_head_not_space 1 2) |].
  apply match_group_exact; [assumption | reflexivity |].
  rewrite match_lit. reflexivity.
Qed.

Lemma run_length_ge f g rest :
  forallb f g = true -> (length g <= run_length f (g ++ rest))%nat.
Proof.
  intros Hg. induction g as [| c g IH]; simpl in *; [lia |].
  apply andb_true_iff in Hg as [-> Hg]. specialize (IH Hg). lia.
Qed.

(** A group of at most two digits captures the digits [g] before [rest]
    when [g] has two digits already or no digit follows. *)
Lemma match_group_upto lo p g rest m :
  digits lo 2 g = true -> group_ends g rest = true ->
  match_here p rest = Some m ->
  match_here (Group lo 2 :: p) (g ++ rest) = Some (g :: m).
Proof.
  intros Hg Hends Hm. pose proof Hg as Hg'.
  apply digits_spec in Hg' as [Hlen Hdig].
  unfold group_ends in Hends. apply orb_true_iff in Hends as [Htwo | Hrest].
  - apply Nat.eqb_eq in Htwo. cbn [match_here].
    pose proof (run_length_ge is_digit g rest Hdig) as Hrun.
    rewrite Nat.min_l by lia. rewrite <- Htwo.
    apply backtrack_first; [lia |].
    now rewrite take_app_length, drop_app_length, Hm.
  - now apply match_group_exact.
Qed.

Lemma match_dotted_occurrence ms ds post :
  digits 1 2 ms = true -> digits 1 2 ds = true ->
  group_ends ds post = true ->
  match_here pat_dotted (dotted_occurrence ms ds ++ post) = Some [ms; ds].
Proof.
  intros Hms Hds Hends. unfold dotted_occurrence, pat_dotted.
  repeat (rewrite <- ?app_assoc; cbn [app]).
  apply match_group_exact; [assumption | reflexivity |].
  rewrite match_lit. now apply match_group_upto.
Qed.

Lemma match_slashed_occurrence ms ds post :
  digits 1 2 ms = true -> digits 1 2 ds = true ->
  group_ends ds post = true ->
  match_here pat_slashed (slashed_occurrence ms ds ++ post) = Some [ms; ds].
Proof.
  intros Hms Hds Hends. unfold slashed_occurrence, pat_slashed.
  repeat (rewrite <- ?app_assoc; cbn [app]).
  apply match_group_exact; [assumption | reflexivity |].
  rewrite match_lit. now apply match_group_upto.
Qed.

(* ===================================================================== *)
(** * The constructors                                                    *)
(* ===================================================================== *)

Lemma int_digits_total g : forall acc,
  forallb is_digit g = true -> exists z, int_digits acc g = Ret z.
Proof.
  induction g as [| c g IH]; intros acc Hg; simpl in *.
  - now exists acc.
  - apply andb_true_iff in Hg as [Hc Hg]. unfold is_digit in Hc.
    destruct (decimal c); [| discriminate]. now apply IH.
Qed.

Lemma int_total lo hi g :
  (1 <= lo)%nat -> digits lo hi g = true -> exists z, int g = Ret z.
Proof.
  intros Hlo Hg. apply digits_spec in Hg as [Hlen Hdig].
  destruct g as [| c g]; [simpl in Hlen; lia |].
  unfold int. now apply int_digits_total.
Qed.

Lemma datetime_outcome y m d :
  datetime y m d = Raise ValueError
  \/ (datetime y m d = Ret (Date y m d) /\ valid_date y m d = true).
Proof. unfold datetime. destruct (valid_date y m d); auto. Qed.

Lemma parser_full_outcome now s m :
  search pat_full s = Some m ->
  exists g1 g2 g3 y mo d,
    m = [g1; g2; g3] /\ int g1 = Ret y /\ int g2 = Ret mo /\ int g3 = Ret d
    /\ parser_full now m = datetime y mo d.
Proof.
  intros H. apply search_groups in H. simpl in H.
  inversion H as [| b1 g1 l1 m1 H1 T1]; subst.
  inversion T1 as [| b2 g2 l2 m2 H2 T2]; subst.
  inversion T2 as [| b3 g3 l3 m3 H3 T3]; subst.
  inversion T3; subst. simpl in H1, H2, H3.
  destruct (int_total 4 4 g1 ltac:(lia) H1) as [y Hy].
  destruct (int_total 1 2 g2 ltac:(lia) H2) as [mo Hmo].
  destruct (int_total 1 2 g3 ltac:(lia) H3) as [d Hd].
  exists g1, g2, g3, y, mo, d. repeat split; try assumption.
  unfold parser_full, group. simpl. rewrite Hy. simpl. rewrite Hmo. simpl.
  rewrite Hd. reflexivity.
Qed.

Lemma parser_current_year_outcome now p s m :
  group_bounds p = [(1, 2); (1, 2)]%nat ->
  search p s = Some m ->
  exists g1 g2 mo d,
    m = [g1; g2] /\ int g1 = Ret mo /\ int g2 = Ret d
    /\ parser_current_year now m = datetime now mo d.
Proof.
  intros Hb H. apply search_groups in H. rewrite Hb in H.
  inversion H as [| b1 g1 l1 m1 H1 T1]; subst.
  inversion T1 as [| b2 g2 l2 m2 H2 T2]; subst.
  inversion T2; subst. simpl in H1, H2.
  destruct (int_total 1 2 g1 ltac:(lia) H1) as [mo Hmo].
  destruct (int_total 1 2 g2 ltac:(lia) H2) as [d Hd].
  exists g1, g2, mo, d. repeat split; try assumption.
  unfold parser_current_year, group. simpl. rewrite Hmo. simpl.
  rewrite Hd. reflexivity.
Qed.

Lemma patterns_outcome pat parse now s m :
  In (pat, parse) patterns -> search pat s = Some m ->
  ret_or_ValueError (parse now m).
Proof.
  unfold patterns, ret_or_ValueError. simpl.
  intros [H | [H | [H | [H | []]]]] Hs; injection H as <- <-.
  - destruct (parser_full_outcome now _ _ Hs)
      as (g1 & g2 & g3 & y & mo & d & _ & _ & _ & _ & ->).
    destruct (datetime_outcome y mo d) as [-> | [-> _]]; eauto.
  - destruct (parser_current_year_outcome now pat_month_day _ _ eq_refl Hs)
      as (g1 & g2 & mo & d & _ & _ & _ & ->).
    destruct (datetime_outcome now mo d) as [-> | [-> _]]; eauto.
  - destruct (parser_current_year_outcome now pat_dotted _ _ eq_refl Hs)
      as (g1 & g2 & mo & d & _ & _ & _ & ->).
    destruct (datetime_outcome now mo d) as [-> | [-> _]]; eauto.
  - destruct (parser_current_year_outcome now pat_slashed _ _ eq_refl Hs)
      as (g1 & g2 & mo & d & _ & _ & _ & ->).
    destruct (datetime_outcome now mo d) as [-> | [-> _]]; eauto.
Qed.

(** The loop over a list of patterns whose constructors behave so always
    returns. *)
Lemma try_patterns_total ps now s :
  (forall pat parse m, In (pat, parse) ps -> search pat s = Some m ->
                       ret_or_ValueError (parse now m)) ->
  exists r, try_patterns ps now s = Ret r.
Proof.
  induction ps as [| [pat parse] ps IH]; intros Hps; simpl.
  - now exists None.
  - assert (exists r, try_patterns ps now s = Ret r) as Htail.
    { apply IH. intros pat' parse' m Hin. apply Hps. now right. }
    destruct (search pat s) as [m |] eqn:Hs; [| assumption].
    destruct (Hps pat parse m (or_introl eq_refl) Hs) as [-> | [d ->]];
      [assumption | now exists (Some d)].
Qed.

(** A date built by the current-year constructor has the current year. *)
Lemma parser_current_year_year now m d :
  parser_current_year now m = Ret d -> year d = now.
Proof.
  unfold parser_current_year, py_bind.
  destruct (group m 1); [| discriminate].
  destruct (int a); [| discriminate].
  destruct (group m 2); [| discriminate].
  destruct (int a1); [| discriminate].
  unfold datetime. destruct (valid_date now a0 a2); [| discriminate].
  now intros [= <-].
Qed.

Lemma try_current_year ps now s d :
  Forall (fun pp => snd pp = parser_current_year) ps ->
  try_patterns ps now s = Ret (Some d) -> year d = now.
Proof.
  induction 1 as [| [pat parse] ps Hp _ IH]; simpl; [discriminate |].
  simpl in Hp. subst parse.
  destruct (search pat s) as [m |]; [| assumption].
  destruct (parser_current_year now m) as [d' | e] eqn:Hd.
  - intros [= <-]. now apply (parser_current_year_year _ _ _ Hd).
  - destruct e; [assumption | discriminate | discriminate].
Qed.


Lemma try_patterns_skip before after now s :
  Forall (yields_nothing now s) before ->
  try_patterns (before ++ after) now s = try_patterns after now s.
Proof.
  induction 1 as [| [pat parse] before Hp _ IH]; simpl; [reflexivity |].
  destruct Hp as [Hn | (m & Hm & Hv)]; simpl in *.
  - now rewrite Hn.
  - now rewrite Hm, Hv.
Qed.

Lemma try_patterns_accept before pat parse after now s m d :
  Forall (yields_nothing now s) before ->
  search pat s = Some m -> parse now m = Ret d ->
  try_patterns (before ++ (pat, parse) :: after) now s = Ret (Some d).
Proof.
  intros Hb Hm Hd. rewrite (try_patterns_skip _ _ _ _ Hb). simpl.
  now rewrite Hm, Hd.
Qed.

Lemma parse_date_returns now s : exists r, parse_date now s = Ret r.
Proof.
  apply try_patterns_total.
  intros pat parse m Hin Hs. now apply (patterns_outcome pat parse now s).
Qed.


(* ===================================================================== *)
(** * DateExtractor: the claims                                           *)
(* ===================================================================== *)

(** C5 (as amended).  The four forms are tried in the fixed order full,
    month-day, dotted, slashed, each on its leftmost occurrence only.
    When the leftmost occurrence of the full form [YYYY년 MM월 DD일] has
    calendar-valid fields, [parse_date] returns exactly that date,
    whatever stands before and after it and whatever the current year is.
    When the full form matches nowhere and the leftmost occurrence of the
    month-day form is calendar-valid in the current year, [parse_date]
    returns it, dated in the current year, even if a dotted or slashed
    form stands earlier in the text.  When the full and the month-day
    form yield nothing and the leftmost dotted occurrence is
    calendar-valid in the current year, it is returned even if a slashed
    form stands earlier in the text.  When the first three yield nothing
    and the leftmost slashed occurrence is calendar-valid in the current
    year, it is returned.  And whenever the full form matches nowhere,
    any date returned has the current year. *)
Theorem parse_date_leftmost_full_date :
  (forall now pre ys sp1 ms sp2 ds post y mo d,
      digits 4 4 ys = true -> blanks sp1 = true -> digits 1 2 ms = true ->
      blanks sp2 = true -> digits 1 2 ds = true ->
      int ys = Ret y -> int ms = Ret mo -> int ds = Ret d ->
      valid_date y mo d = true ->
      (forall j, (j < length pre)%nat ->
         match_here pat_full
           (drop j (pre ++ full_occurrence ys sp1 ms sp2 ds ++ post)) = None) ->
      parse_date now (pre ++ full_occurrence ys sp1 ms sp2 ds ++ post)
      = Ret (Some (Date y mo d)))
  /\ (forall now pre ms sp ds post mo d,
      digits 1 2 ms = true -> blanks sp = true -> digits 1 2 ds = true ->
      int ms = Ret mo -> int ds = Ret d ->
      valid_date now mo d = true ->
      search pat_full (pre ++ month_day_occurrence ms sp ds ++ post) = None ->
      (forall j, (j < length pre)%nat ->
         match_here pat_month_day
           (drop j (pre ++ month_day_occurrence ms sp ds ++ post)) = None) ->
      parse_date now (pre ++ month_day_occurrence ms sp ds ++ post)
      = Ret (Some (Date now mo d)))
  /\ (forall now pre ms ds post mo d,
      digits 1 2 ms = true -> digits 1 2 ds = true ->
      group_ends ds post = true ->
      int ms = Ret mo -> int ds = Ret d ->
      valid_date now mo d = true ->
      yields_nothing now (pre ++ dotted_occurrence ms ds ++ post)
        (pat_full, parser_full) ->
      yields_nothing now (pre ++ dotted_occurrence ms ds ++ post)
        (pat_month_day, parser_current_year) ->
      (forall j, (j < length pre)%nat ->
         match_here pat_dotted
           (drop j (pre ++ dotted_occurrence ms ds ++ post)) = None) ->
      parse_date now (pre ++ dotted_occurrence ms ds ++ post)
      = Ret (Some (Date now mo d)))
  /\ (forall now pre ms ds post mo d,
      digits 1 2 ms = true -> digits 1 2 ds = true ->
      group_ends ds post = true ->
      int ms = Ret mo -> int ds = Ret d ->
      valid_date now mo d = true ->
      yields_nothing now (pre ++ slashed_occurrence ms ds ++ post)
        (pat_full, parser_full) ->
      yields_nothing now (pre ++ slashed_occurrence ms ds ++ post)
        (pat_month_day, parser_current_year) ->
      yields_nothing now (pre ++ slashed_occurrence ms ds ++ post)
        (pat_dotted, parser_current_year) ->
      (forall j, (j < length pre)%nat ->
         match_here pat_slashed
           (drop j (pre ++ slashed_occurrence ms ds ++ post)) = None) ->
      parse_date now (pre ++ slashed_occurrence ms ds ++ post)
      = Ret (Some (Date now mo d)))
  /\ (forall now s d,
      search pat_full s = None ->
      parse_date now s = Ret (Some d) -> year d = now).
Proof.
  split; [| split; [| split; [| split]]].
  - intros now pre ys sp1 ms sp2 ds post y mo d
      Hys Hsp1 Hms Hsp2 Hds Hy Hmo Hd Hvalid Hleft.
    apply (try_patterns_accept [] pat_full parser_full _ now _ [ys; ms; ds]).
    + constructor.
    + apply search_leftmost; [assumption |].
      now apply match_full_occurrence.
    + unfold parser_full, group, datetime. simpl.
      rewrite Hy. simpl. rewrite Hmo. simpl. rewrite Hd. simpl.
      now rewrite Hvalid.
  - intros now pre ms sp ds post mo d Hms Hsp Hds Hmo Hd Hvalid Hfull Hleft.
    apply (try_patterns_accept [(pat_full, parser_full)] pat_month_day
             parser_current_year _ now _ [ms; ds]).
    + constructor; [now left | constructor].
    + apply search_leftmost; [assumption |].
      now apply match_month_day_occurrence.
    + unfold parser_current_year, group, datetime. simpl.
      rewrite Hmo. simpl. rewrite Hd. simpl. now rewrite Hvalid.
  - intros now pre ms ds post mo d
      Hms Hds Hends Hmo Hd Hvalid Hfull Hmd Hleft.
    apply (try_patterns_accept
             [(pat_full, parser_full); (pat_month_day, parser_current_year)]
             pat_dotted parser_current_year _ now _ [ms; ds]).
    + constructor; [assumption |]. constructor; [assumption | constructor].
    + apply search_leftmost; [assumption |].
      now apply match_dotted_occurrence.
    + unfold parser_current_year, group, datetime. simpl.
      rewrite Hmo. simpl. rewrite Hd. simpl. now rewrite Hvalid.
  - intros now pre ms ds post mo d
      Hms Hds Hends Hmo Hd Hvalid Hfull Hmd Hdot Hleft.
    apply (try_patterns_accept
             [(pat_full, parser_full); (pat_month_day, parser_current_year);
              (pat_dotted, parser_current_year)]
             pat_slashed parser_current_year [] now _ [ms; ds]).
    + constructor; [assumption |]. constructor; [assumption |].
      constructor; [assumption | constructor].
    + apply search_leftmost; [assumption |].
      now apply match_slashed_occurrence.
    + unfold parser_current_year, group, datetime. simpl.
      rewrite Hmo. simpl. rewrite Hd. simpl. now rewrite Hvalid.
  - intros now s d Hfull H.
    pose proof (try_patterns_skip [(pat_full, parser_full)]
                  [ (pat_month_day, parser_current_year);
                    (pat_dotted, parser_current_year);
                    (pat_slashed, parser_current_year) ] now s) as E.
    cbn [app] in E. unfold parse_date, patterns in H.
    rewrite E in H by (constructor; [now left | constructor]).
    eapply try_current_year; [| exact H]. repeat constructor.
Qed.


(** C8.  [parse_date] always returns: no exception reaches the caller.
    When a pattern matches and the fields handed to the constructor are
    out of calendar range, the pattern is passed over and the result is
    that of the patterns after it: the date of the next pattern in the
    list whose leftmost match constructs one is returned.  A text that
    no pattern matches, and in particular a text without any decimal
    digit, gives the absent result. *)
Theorem parse_date_total :
  (forall now s, exists r, parse_date now s = Ret r)
  /\ (forall now s before pat parse after m y mo d,
      patterns = before ++ (pat, parse) :: after ->
      Forall (yields_nothing now s) before ->
      search pat s = Some m ->
      parse now m = datetime y mo d -> valid_date y mo d = false ->
      parse_date now s = try_patterns after now s)
  /\ (forall now s before pat parse between pat' parse' after m y mo d m' d',
      patterns
      = before ++ (pat, parse) :: between ++ (pat', parse') :: after ->
      Forall (yields_nothing now s) before ->
      search pat s = Some m ->
      parse now m = datetime y mo d -> valid_date y mo d = false ->
      Forall (yields_nothing now s) between ->
      search pat' s = Some m' -> parse' now m' = Ret d' ->
      parse_date now s = Ret (Some d'))
  /\ (forall now s,
      Forall (fun pp => search (fst pp) s = None) patterns ->
      parse_date now s = Ret None)
  /\ (forall now s,
      forallb (fun c => negb (is_digit c)) s = true ->
      parse_date now s = Ret None).
Proof.
  split; [| split; [| split; [| split]]].
  - apply parse_date_returns.
  - intros now s before pat parse after m y mo d Hsplit Hb Hs Hparse Hbad.
    unfold parse_date. rewrite Hsplit.
    rewrite (try_patterns_skip _ _ _ _ Hb). simpl.
    rewrite Hs, Hparse. unfold datetime. now rewrite Hbad.
  - intros now s before pat parse between pat' parse' after m y mo d m' d'
      Hsplit Hb Hs Hparse Hbad Hbetween Hs' Hparse'.
    unfold parse_date. rewrite Hsplit.
    rewrite (try_patterns_skip _ _ _ _ Hb). cbn [try_patterns].
    rewrite Hs, Hparse. unfold datetime. rewrite Hbad.
    now apply (try_patterns_accept between pat' parse' after now s m' d').
  - intros now s Hs. unfold parse_date.
    rewrite <- (app_nil_r patterns). rewrite try_patterns_skip; [reflexivity |].
    eapply Forall_impl; [exact Hs |]. intros pp Hpp. now left.
  - intros now s Hs. unfold parse_date, patterns, try_patterns.
    unfold pat_full, pat_month_day, pat_dotted, pat_slashed.
    now rewrite !search_no_digit by (assumption || lia).
Qed.

(** C9 (as amended).  When no pattern matches or every construction
    fails validation, [parse_date] returns the absent value, which is
    also what it returns for the empty text: the two outcomes are the
    same value. *)
Theorem parse_date_absent_as_for_empty :
  forall now s,
    Forall (yields_nothing now s) patterns ->
    parse_date now s = Ret None /\ parse_date now [] = Ret None.
Proof.
  intros now s H. split; [| reflexivity].
  unfold parse_date. rewrite <- (app_nil_r patterns).
  now rewrite (try_patterns_skip _ _ _ _ H).
Qed.



(* ===================================================================== *)
(** * scrape_menu: the claims                                             *)
(* ===================================================================== *)

#[local] Arguments parse_date : simpl never.

(** Once page, image URL, image, post title and OCR text are obtained,
    [scrape_menu] returns a record. *)
Lemma scrape_menu_returns restaurant w html image_url image title ocr_text :
  page w = Some html -> html <> EmptyString ->
  found_image_url w = Ret (Some image_url) -> image_url <> EmptyString ->
  downloaded w = Some image -> post_title w = Ret title ->
  extract_text_from_image (ocr w) = Ret ocr_text ->
  exists rec, scrape_menu restaurant w = Ret (Some rec)
              /\ r_menu_text rec = ocr_text.
Proof.
  intros Hp Hh Hu Hi Hd Ht Ho.
  unfold scrape_menu. rewrite Hp, Hu, Hd, Ht, Ho. simpl.
  rewrite (bool_decide_eq_false_2 _ Hh), (bool_decide_eq_false_2 _ Hi).
  destruct (parse_date_returns (year_at_ocr w) ocr_text) as [r2 Hr2].
  rewrite Hr2.
  destruct (date_in_post restaurant); simpl; [| eauto].
  destruct title as [[| c t] |]; simpl; [eauto | | eauto].
  destruct (parse_date_returns (year_at_title w) (c :: t)) as [[d |] ->];
    simpl; eauto.
Qed.

(** C4.  [scrape_menu] returns a record once its inputs are obtained, and
    in any record it returns: when [date_in_post] is false the date is the
    one [parse_date] finds in the OCR text, whatever the post title is;
    when it is true the date found in the post title is taken if there is
    one, and the OCR text is parsed only when the title is absent or gives
    no date. *)
Theorem scrape_menu_date_source :
  forall restaurant w,
    (forall html image_url image title ocr_text,
        page w = Some html -> html <> EmptyString ->
        found_image_url w = Ret (Some image_url) ->
        image_url <> EmptyString ->
        downloaded w = Some image -> post_title w = Ret title ->
        extract_text_from_image (ocr w) = Ret ocr_text ->
        exists rec, scrape_menu restaurant w = Ret (Some rec))
    /\ (forall rec,
        scrape_menu restaurant w = Ret (Some rec) ->
        exists ocr_text,
          extract_text_from_image (ocr w) = Ret ocr_text
          /\ (date_in_post restaurant = false ->
              parse_date (year_at_ocr w) ocr_text = Ret (r_date rec))
          /\ (date_in_post restaurant = true ->
              exists title,
                post_title w = Ret title
                /\ match title with
                   | Some t =>
                       match parse_date (year_at_title w) t with
                       | Ret (Some d) => r_date rec = Some d
                       | _ => parse_date (year_at_ocr w) ocr_text
                              = Ret (r_date rec)
                       end
                   | None =>
                       parse_date (year_at_ocr w) ocr_text
                       = Ret (r_date rec)
                   end)).
Proof.
  intros restaurant w. split.
  { intros html image_url image title ocr_text Hp Hh Hu Hi Hd Ht Ho.
    destruct (scrape_menu_returns restaurant w _ _ _ _ _
                Hp Hh Hu Hi Hd Ht Ho) as (rec & Hrec & _).
    now exists rec. }
  intros rec H. unfold scrape_menu in H.
  destruct (page w) as [html |]; [| discriminate].
  destruct (bool_decide (html = EmptyString)); [discriminate |].
  destruct (found_image_url w) as [[image_url |] | e]; simpl in H;
    try discriminate.
  destruct (bool_decide (image_url = EmptyString)); [discriminate |].
  destruct (downloaded w) as [image |]; [| discriminate].
  destruct (date_in_post restaurant) eqn:Hflag; simpl in H.
  - destruct (post_title w) as [title | e]; simpl in H; [| discriminate].
    destruct (extract_text_from_image (ocr w)) as [ocr_text | e] eqn:Hocr.
    2:{ destruct title as [[| c t] |]; simpl in H; try discriminate.
        destruct (parse_date (year_at_title w) (c :: t)); discriminate. }
    exists ocr_text. split; [reflexivity |]. split; [discriminate |].
    intros _. exists title. split; [reflexivity |].
    destruct title as [[| c t] |]; simpl in H.
    + change (parse_date (year_at_title w) []) with (@Ret (option date) None).
      destruct (parse_date (year_at_ocr w) ocr_text) as [d |];
        simpl in H; [| discriminate].
      now injection H as <-.
    + destruct (parse_date (year_at_title w) (c :: t)) as [[d |] | e];
        simpl in H; [| | discriminate].
      * now injection H as <-.
      * destruct (parse_date (year_at_ocr w) ocr_text) as [d |];
          simpl in H; [| discriminate].
        now injection H as <-.
    + destruct (parse_date (year_at_ocr w) ocr_text) as [d |];
        simpl in H; [| discriminate].
      now injection H as <-.
  - destruct (extract_text_from_image (ocr w)) as [ocr_text | e] eqn:Hocr;
      simpl in H; [| discriminate].
    exists ocr_text. split; [reflexivity |]. split; [| discriminate].
    intros _.
    destruct (parse_date (year_at_ocr w) ocr_text) as [d |];
      simpl in H; [| discriminate].
    now injection H as <-.
Qed.

Lemma scrape_all_In rs w rec :
  In rec (scrape_all rs w) <->
  exists restaurant,
    In restaurant rs /\ scrape_menu restaurant (w restaurant) = Ret (Some rec).
Proof.
  induction rs as [| r rs IH]; simpl.
  - split; [contradiction | intros (x & [] & _)].
  - destruct (scrape_menu r (w r)) as [[result |] | e] eqn:Hr.
    + simpl. rewrite IH. split.
      * intros [<- | (x & Hx & Hs)]; [exists r; auto | exists x; auto].
      * intros (x & [<- | Hx] & Hs).
        -- left. congruence.
        -- right. now exists x.
    + rewrite IH. split.
      * intros (x & Hx & Hs). exists x; auto.
      * intros (x & [<- | Hx] & Hs); [congruence | now exists x].
    + rewrite IH. split.
      * intros (x & Hx & Hs). exists x; auto.
      * intros (x & [<- | Hx] & Hs); [congruence | now exists x].
Qed.

(** C7 (as amended).  When the image cannot be downloaded, or the OCR
    engine fails outside its guarded read (initialisation, image
    preprocessing), [scrape_menu] produces no record.  When the read
    itself fails, the OCR text is the empty string and a record is still
    produced whenever page, image URL, image and post title were
    obtained.  The records of an attempt are exactly those of the
    restaurants whose scrape returned one: a failure for one restaurant
    does not touch the others. *)
Theorem scrape_failures_are_local :
  (forall restaurant w rec,
      downloaded w = None -> scrape_menu restaurant w <> Ret (Some rec))
  /\ (forall restaurant w e rec,
      ocr w = OcrSetupRaises e -> scrape_menu restaurant w <> Ret (Some rec))
  /\ (forall restaurant w html image_url image title,
      ocr w = OcrReadRaises ->
      page w = Some html -> html <> EmptyString ->
      found_image_url w = Ret (Some image_url) -> image_url <> EmptyString ->
      downloaded w = Some image -> post_title w = Ret title ->
      exists rec, scrape_menu restaurant w = Ret (Some rec)
                  /\ r_menu_text rec = [])
  /\ (forall rs w rec,
      In rec (scrape_all rs w) <->
      exists restaurant,
        In restaurant rs
        /\ scrape_menu restaurant (w restaurant) = Ret (Some rec)).
Proof.
  split; [| split; [| split]].
  - intros restaurant w rec Hd H. unfold scrape_menu in H. rewrite Hd in H.
    destruct (page w) as [html |]; [| discriminate].
    destruct (bool_decide (html = EmptyString)); [discriminate |].
    destruct (found_image_url w) as [[image_url |] | e]; simpl in H;
      try discriminate.
    destruct (bool_decide (image_url = EmptyString)); discriminate.
  - intros restaurant w e rec Ho H. unfold scrape_menu in H.
    rewrite Ho in H. simpl in H.
    destruct (page w) as [html |]; [| discriminate].
    destruct (bool_decide (html = EmptyString)); [discriminate |].
    destruct (found_image_url w) as [[image_url |] | e']; simpl in H;
      try discriminate.
    destruct (bool_decide (image_url = EmptyString)); [discriminate |].
    destruct (downloaded w) as [image |]; [| discriminate].
    destruct (date_in_post restaurant); simpl in H; [| discriminate].
    destruct (post_title w) as [[[| c t] |] | e']; simpl in H;
      try discriminate.
    destruct (parse_date (year_at_title w) (c :: t)); discriminate.
  - intros restaurant w html image_url image title Ho Hp Hh Hu Hi Hd Ht.
    apply (scrape_menu_returns restaurant w html image_url image title);
      try assumption.
    now rewrite Ho.
  - apply scrape_all_In.
Qed.


(* ===================================================================== *)
(** * The retry loop: the claims                                          *)
(* ===================================================================== *)

Section Loop.
Variable rs : list Restaurant.
Variable world : nat -> Restaurant -> World.
Variable max_retries : nat.
Variable retry_interval : Z.

Local Notation results k := (scrape_all rs (world k)).
Local Notation loop := (retry_loop rs world max_retries retry_interval).

(** Attempts [a .. a + n - 1] find nothing of today, attempt [a + n]
    does, and the range is long enough to reach it. *)
Lemma retry_loop_success : forall n remaining a,
  (n < remaining)%nat -> (a + n <= max_retries)%nat ->
  (forall j, (a <= j < a + n)%nat -> today_menus (results j) = []) ->
  today_menus (results (a + n)) <> [] ->
  loop remaining a
  = map (slept rs world retry_interval) (seq a n)
    ++ [ {| it_attempt := a + n; it_results := results (a + n);
            it_action := Notify (results (a + n)) |} ].
Proof.
  induction n as [| n IH]; intros remaining a Hrem Hmax Hnone Hsome;
    destruct remaining as [| remaining]; try lia; simpl.
  - rewrite Nat.add_0_r in *.
    destruct (today_menus (scrape_all rs (world a))); [congruence |].
    reflexivity.
  - rewrite (Hnone a) by lia.
    destruct (Nat.ltb_spec a max_retries); [| lia].
    unfold slept at 1. f_equal.
    rewrite <- Nat.add_succ_comm in *.
    apply IH; try lia; try assumption.
    intros j Hj. apply Hnone. lia.
Qed.

(** No attempt from [a] to [max_retries] finds anything of today. *)
Lemma retry_loop_exhausted : forall n a,
  (a + n = max_retries)%nat ->
  (forall j, (a <= j <= max_retries)%nat -> today_menus (results j) = []) ->
  loop (S n) a
  = map (slept rs world retry_interval) (seq a n)
    ++ [ {| it_attempt := max_retries; it_results := results max_retries;
            it_action := match results max_retries with
                         | _ :: _ => Notify (results max_retries)
                         | [] => NoData
                         end |} ].
Proof.
  induction n as [| n IH]; intros a Hmax Hnone; simpl.
  - rewrite (Hnone a) by lia.
    destruct (Nat.ltb_spec a max_retries); [lia |].
    assert (a = max_retries) as -> by lia. reflexivity.
  - rewrite (Hnone a) by lia.
    destruct (Nat.ltb_spec a max_retries); [| lia].
    unfold slept at 1. f_equal.
    apply IH; [lia |]. intros j Hj. apply Hnone. lia.
Qed.

(** Every pass of the loop holds the results of its own attempt, and a
    notification carries exactly those. *)
Lemma retry_loop_iteration : forall remaining a it,
  In it (loop remaining a) ->
  (a <= it_attempt it < a + remaining)%nat
  /\ it_results it = results (it_attempt it)
  /\ (forall sent, it_action it = Notify sent -> sent = it_results it).
Proof.
  induction remaining as [| remaining IH]; intros a it Hin; simpl in Hin;
    [contradiction |].
  destruct (today_menus (scrape_all rs (world a))).
  - destruct (a <? max_retries)%nat.
    + destruct Hin as [<- | Hin]; simpl.
      * repeat split; try lia. discriminate.
      * destruct (IH _ _ Hin) as (Hr & Hres & Hact).
        repeat split; try lia; assumption.
    + destruct Hin as [<- | []]; simpl.
      repeat split; try lia.
      destruct (scrape_all rs (world a)); [discriminate |].
      now intros sent [= <-].
  - destruct Hin as [<- | []]; simpl.
    repeat split; try lia. now intros sent [= <-].
Qed.
End Loop.

(** With the three variables set, [main] is the loop over the three
    restaurants, six attempts, a quarter of an hour apart. *)
Lemma main_polling env world :
  unset (SENDER_EMAIL env) = false -> unset (SENDER_PASSWORD env) = false ->
  unset (RECIPIENT_EMAIL env) = false ->
  main env world = polling restaurants world MAX_RETRIES RETRY_INTERVAL.
Proof. intros H1 H2 H3. unfold main. now rewrite H1, H2, H3. Qed.

(** C1 (as amended).  After each attempt the record set of the loop
    holds exactly the records produced on that attempt: for each
    restaurant its record of this attempt if the scrape returned one, and
    nothing otherwise (nothing is kept from earlier attempts); a
    notification is sent with exactly the records of the current
    attempt. *)
Theorem polling_records_of_current_attempt :
  forall rs world max_retries retry_interval it,
    In it (polling rs world max_retries retry_interval) ->
    (1 <= it_attempt it <= max_retries)%nat
    /\ it_results it = scrape_all rs (world (it_attempt it))
    /\ (forall rec,
          In rec (it_results it) <->
          exists restaurant,
            In restaurant rs
            /\ scrape_menu restaurant (world (it_attempt it) restaurant)
               = Ret (Some rec))
    /\ (forall sent, it_action it = Notify sent -> sent = it_results it).
Proof.
  intros rs world max_retries retry_interval it Hin.
  apply retry_loop_iteration in Hin as (Hr & Hres & Hact).
  repeat split; try lia; try assumption.
  - rewrite Hres. apply scrape_all_In.
  - rewrite Hres. apply scrape_all_In.
Qed.

(** C2.  If attempt [k] is the first whose results hold a record of
    today, the run consists of [k - 1] attempts each followed by a sleep
    and of attempt [k], which sends the notification with the records of
    attempt [k]; nothing follows. *)
Theorem polling_success_on_first_today :
  forall rs world max_retries retry_interval k,
    (1 <= k <= max_retries)%nat ->
    (forall j, (1 <= j < k)%nat ->
               today_menus (scrape_all rs (world j)) = []) ->
    today_menus (scrape_all rs (world k)) <> [] ->
    polling rs world max_retries retry_interval
    = map (slept rs world retry_interval) (seq 1 (k - 1))
      ++ [ {| it_attempt := k; it_results := scrape_all rs (world k);
              it_action := Notify (scrape_all rs (world k)) |} ].
Proof.
  intros rs world max_retries retry_interval k Hk Hnone Hsome.
  unfold polling.
  replace k with (1 + (k - 1))%nat at 2 3 4 by lia.
  apply retry_loop_success; try lia.
  - intros j Hj. apply Hnone. lia.
  - now replace (1 + (k - 1))%nat with k by lia.
Qed.

(** C3 (as amended).  If no attempt yields a record of today, the run
    consists of [max_retries - 1] attempts each followed by a sleep and of
    attempt [max_retries], at which the notification is sent if and only
    if the last attempt itself produced at least one record, with exactly
    those records; with no record on the last attempt nothing is sent. *)
Theorem polling_exhausted_after_max_retries :
  forall rs world max_retries retry_interval,
    (1 <= max_retries)%nat ->
    (forall j, (1 <= j <= max_retries)%nat ->
               today_menus (scrape_all rs (world j)) = []) ->
    polling rs world max_retries retry_interval
    = map (slept rs world retry_interval) (seq 1 (max_retries - 1))
      ++ [ {| it_attempt := max_retries;
              it_results := scrape_all rs (world max_retries);
              it_action := match scrape_all rs (world max_retries) with
                           | _ :: _ =>
                               Notify (scrape_all rs (world max_retries))
                           | [] => NoData
                           end |} ]
    /\ ((exists it sent,
           In it (polling rs world max_retries retry_interval)
           /\ it_action it = Notify sent)
        <-> scrape_all rs (world max_retries) <> []).
Proof.
  intros rs world max_retries retry_interval Hmax Hnone.
  assert (polling rs world max_retries retry_interval
          = map (slept rs world retry_interval) (seq 1 (max_retries - 1))
            ++ [ {| it_attempt := max_retries;
                    it_results := scrape_all rs (world max_retries);
                    it_action :=
                      match scrape_all rs (world max_retries) with
                      | _ :: _ => Notify (scrape_all rs (world max_retries))
                      | [] => NoData
                      end |} ]) as Hrun.
  { unfold polling.
    replace max_retries with (S (max_retries - 1)) at 2 by lia.
    apply retry_loop_exhausted; [lia | assumption]. }
  split; [assumption |]. rewrite Hrun. split.
  - intros (it & sent & Hin & Hact).
    apply in_app_or in Hin as [Hin | [<- | []]].
    + apply in_map_iff in Hin as (j & <- & _). discriminate Hact.
    + simpl in Hact.
      destruct (scrape_all rs (world max_retries)); [discriminate | easy].
  - intros Hne.
    exists {| it_attempt := max_retries;
              it_results := scrape_all rs (world max_retries);
              it_action := match scrape_all rs (world max_retries) with
                           | _ :: _ =>
                               Notify (scrape_all rs (world max_retries))
                           | [] => NoData
                           end |}, (scrape_all rs (world max_retries)).
    split.
    + apply in_or_app. right. left. reflexivity.
    + simpl. destruct (scrape_all rs (world max_retries)); [easy |].
      reflexivity.
Qed.


(* ===================================================================== *)
(** * Concrete runs                                                       *)
(* ===================================================================== *)

(** Discharges "no match starts before position [length pre]" on a
    concrete text, position by position. *)
Ltac no_match_before :=
  let j := fresh "j" in
  let Hj := fresh "Hj" in
  intros j Hj;
  repeat (destruct j as [| j]; [vm_compute; reflexivity |]);
  exfalso; vm_compute in Hj; lia.

Ltac computed := vm_compute; reflexivity.

(** Hypotheses of the occurrence theorems at a concrete text. *)
Ltac occurrence_side :=
  lazymatch goal with
  | |- forall _, _ => no_match_before
  | |- yields_nothing _ _ _ => left; computed
  | |- _ => computed
  end.

(** C1, counterexample.  왕의밥상 yields yesterday's record on attempt 1
    and fails on attempt 2, where 원테이블 yields today's: the latest
    record of 왕의밥상 is in the aggregation the claim describes, but
    neither in the record set after attempt 2 nor in the notification. *)
Lemma polling_drops_earlier_records :
  main configured world_stale_then_fresh
  = [ {| it_attempt := 1; it_results := [stale_record];
         it_action := Sleep 900 |};
      notified_fresh ]
  /\ spec_aggregate restaurants world_stale_then_fresh 2 !! "왕의밥상"%string
     = Some stale_record
  /\ ~ In stale_record (it_results notified_fresh).
Proof.
  split; [computed | split; [computed |]].
  intros [H | []]. discriminate H.
Qed.

Lemma polling_records_of_current_attempt_witness :
  In notified_fresh
     (polling restaurants world_stale_then_fresh MAX_RETRIES RETRY_INTERVAL)
  /\ (1 <= it_attempt notified_fresh <= MAX_RETRIES)%nat
  /\ it_results notified_fresh
     = scrape_all restaurants (world_stale_then_fresh 2).
Proof.
  assert (In notified_fresh
            (polling restaurants world_stale_then_fresh MAX_RETRIES
               RETRY_INTERVAL)) as Hin.
  { assert (polling restaurants world_stale_then_fresh MAX_RETRIES
              RETRY_INTERVAL
            = [ {| it_attempt := 1; it_results := [stale_record];
                   it_action := Sleep 900 |};
                notified_fresh ]) as -> by computed.
    right. left. reflexivity. }
  split; [exact Hin |].
  destruct (polling_records_of_current_attempt restaurants
              world_stale_then_fresh MAX_RETRIES RETRY_INTERVAL
              notified_fresh Hin) as (H1 & H2 & _).
  split; [exact H1 | exact H2].
Defined.

Lemma polling_success_on_first_today_witness :
  polling restaurants world_stale_then_fresh MAX_RETRIES RETRY_INTERVAL
  = map (slept restaurants world_stale_then_fresh RETRY_INTERVAL) (seq 1 1)
    ++ [ {| it_attempt := 2;
            it_results := scrape_all restaurants (world_stale_then_fresh 2);
            it_action :=
              Notify (scrape_all restaurants (world_stale_then_fresh 2)) |} ].
Proof.
  apply (polling_success_on_first_today restaurants world_stale_then_fresh
           MAX_RETRIES RETRY_INTERVAL 2).
  - unfold MAX_RETRIES. lia.
  - intros j Hj. assert (j = 1%nat) as -> by lia. computed.
  - vm_compute. discriminate.
Defined.

(** C3, counterexample.  왕의밥상 yields yesterday's record on attempt 1
    and nothing is produced on attempts 2 to 6: the aggregation the claim
    describes holds a record when the attempts are exhausted, yet no
    notification is sent. *)
Lemma exhausted_ignores_earlier_records :
  map it_results (main configured world_stale_then_nothing)
  = [[stale_record]; []; []; []; []; []]
  /\ r_is_today stale_record = false
  /\ spec_aggregate restaurants world_stale_then_nothing 6 !! "왕의밥상"%string
     = Some stale_record
  /\ map it_action (main configured world_stale_then_nothing)
     = [Sleep 900; Sleep 900; Sleep 900; Sleep 900; Sleep 900; NoData].
Proof. repeat split; computed. Qed.

Lemma polling_exhausted_after_max_retries_witness :
  map it_action
    (polling restaurants world_stale_then_nothing MAX_RETRIES RETRY_INTERVAL)
  = [Sleep 900; Sleep 900; Sleep 900; Sleep 900; Sleep 900; NoData].
Proof.
  destruct (polling_exhausted_after_max_retries restaurants
              world_stale_then_nothing MAX_RETRIES RETRY_INTERVAL)
    as [Hrun _].
  - unfold MAX_RETRIES. lia.
  - intros j Hj. unfold world_stale_then_nothing.
    destruct (j =? 1)%nat; computed.
  - rewrite Hrun. computed.
Defined.

Lemma scrape_menu_date_source_witness :
  scrape_menu wang (posted "2026년 02월 05일 점심메뉴" ["2월 4일"; "비빔밥"])
  = Ret (Some {| r_restaurant := "왕의밥상";
                 r_date := Some (Date 2026 2 5);
                 r_is_today := true;
                 r_image_url := "https://img.example/menu.jpg";
                 r_menu_text := text_of "2월 4일" ++ [0xA%N] ++ text_of "비빔밥";
                 r_image := PILImage 1 |})
  /\ exists ocr_text,
       extract_text_from_image
         (ocr (posted "2026년 02월 05일 점심메뉴" ["2월 4일"; "비빔밥"]))
       = Ret ocr_text
       /\ parse_date 2026 ocr_text = Ret (Some (Date 2026 2 4)).
Proof.
  assert (scrape_menu wang
            (posted "2026년 02월 05일 점심메뉴" ["2월 4일"; "비빔밥"])
          = Ret (Some {| r_restaurant := "왕의밥상";
                         r_date := Some (Date 2026 2 5);
                         r_is_today := true;
                         r_image_url := "https://img.example/menu.jpg";
                         r_menu_text :=
                           text_of "2월 4일" ++ [0xA%N] ++ text_of "비빔밥";
                         r_image := PILImage 1 |})) as Hrec by computed.
  split; [exact Hrec |].
  destruct (proj2 (scrape_menu_date_source _ _) _ Hrec)
    as (ocr_text & Hocr & _ & _).
  exists ocr_text. split; [exact Hocr |].
  vm_compute in Hocr. injection Hocr as <-. computed.
Defined.

(** C5, counterexample.  The text holds the calendar-valid full date
    2026년 2월 5일, but an earlier occurrence of the full form has month
    13: the result is absent. *)
Lemma parse_date_misses_later_full_date :
  valid_date 2026 2 5 = true
  /\ parse_date 2026
       (text_of "2026년 13월 1일 "
        ++ full_occurrence (text_of "2026") (text_of " ") (text_of "2")
             (text_of " ") (text_of "5")
        ++ text_of " 점심메뉴")
     = Ret None.
Proof. split; computed. Qed.

Lemma parse_date_leftmost_full_date_witness :
  parse_date 2030
    (text_of "12.25 행사 안내 "
     ++ full_occurrence (text_of "2026") (text_of " ") (text_of "02")
          (text_of " ") (text_of "05")
     ++ text_of " 점심메뉴 3/1")
  = Ret (Some (Date 2026 2 5))
  /\ parse_date 2026
       (text_of "3.1 메뉴 "
        ++ month_day_occurrence (text_of "2") (text_of " ") (text_of "5")
        ++ text_of " (목)")
     = Ret (Some (Date 2026 2 5))
  /\ parse_date 2026
       (text_of "3/1 그리고 "
        ++ dotted_occurrence (text_of "2") (text_of "5") ++ text_of " 메뉴")
     = Ret (Some (Date 2026 2 5))
  /\ parse_date 2026
       (text_of "13.40 메뉴 "
        ++ slashed_occurrence (text_of "3") (text_of "1") ++ text_of "일자")
     = Ret (Some (Date 2026 3 1))
  /\ year (Date 2026 2 5) = 2026.
Proof.
  destruct parse_date_leftmost_full_date
    as (Hfull & Hmd & Hdotted & Hslashed & Hyear).
  split; [| split; [| split; [| split]]].
  - apply Hfull; occurrence_side.
  - apply Hmd; occurrence_side.
  - apply Hdotted; occurrence_side.
  - apply Hslashed;
      [ occurrence_side | occurrence_side | occurrence_side
      | occurrence_side | occurrence_side | occurrence_side
      | occurrence_side | occurrence_side | | occurrence_side ].
    right. exists [text_of "13"; text_of "40"]. split; computed.
  - apply (Hyear 2026 (text_of "메뉴 2.5 (목)") (Date 2026 2 5)); computed.
Defined.


(** C7, counterexample.  The OCR read raises; a record is produced all
    the same, with empty text and the date of the post title. *)
Lemma ocr_read_failure_still_yields_record :
  ocr world_ocr_read_fails = OcrReadRaises
  /\ scrape_menu wang world_ocr_read_fails = Ret (Some textless_record)
  /\ scrape_all [wang] (fun _ => world_ocr_read_fails) = [textless_record].
Proof. repeat split; computed. Qed.

Lemma scrape_failures_are_local_witness :
  scrape_menu wang world_download_fails <> Ret (Some textless_record)
  /\ scrape_menu wang world_ocr_setup_fails <> Ret (Some textless_record)
  /\ (exists rec, scrape_menu wang world_ocr_read_fails = Ret (Some rec)
                  /\ r_menu_text rec = [])
  /\ In stale_record (scrape_all restaurants (world_stale_then_nothing 1)).
Proof.
  destruct scrape_failures_are_local as (Hdown & Hsetup & Hread & Hall).
  split; [| split; [| split]].
  - apply Hdown. reflexivity.
  - apply (Hsetup _ _ OtherError). reflexivity.
  - apply (Hread wang world_ocr_read_fails "<html>"%string
             "https://img.example/menu.jpg"%string (PILImage 1)
             (Some (text_of "2026년 02월 05일 점심메뉴")));
      try reflexivity; discriminate.
  - apply Hall. exists wang. split; [left; reflexivity | computed].
Defined.

Lemma parse_date_total_witness :
  (exists r, parse_date 2026 (text_of "13월 40일 2.5") = Ret r)
  /\ parse_date 2026 (text_of "13월 40일 2.5")
     = try_patterns [ (pat_dotted, parser_current_year);
                      (pat_slashed, parser_current_year) ]
         2026 (text_of "13월 40일 2.5")
  /\ parse_date 2026 (text_of "13월 40일 2.5") = Ret (Some (Date 2026 2 5))
  /\ parse_date 2026 (text_of "13월 40일 13.40 2/5")
     = Ret (Some (Date 2026 2 5))
  /\ parse_date 2026 (text_of "오늘의 메뉴") = Ret None.
Proof.
  destruct parse_date_total as (Htotal & Hfall & Hnext & _ & Hnone).
  split; [apply Htotal | split; [| split; [| split]]].
  - apply (Hfall 2026 (text_of "13월 40일 2.5") [(pat_full, parser_full)]
             pat_month_day parser_current_year
             [ (pat_dotted, parser_current_year);
               (pat_slashed, parser_current_year) ]
             [text_of "13"; text_of "40"] 2026 13 40).
    + reflexivity.
    + constructor; [left; computed | constructor].
    + computed.
    + computed.
    + computed.
  - apply (Hnext 2026 (text_of "13월 40일 2.5") [(pat_full, parser_full)]
             pat_month_day parser_current_year []
             pat_dotted parser_current_year
             [(pat_slashed, parser_current_year)]
             [text_of "13"; text_of "40"] 2026 13 40
             [text_of "2"; text_of "5"] (Date 2026 2 5)).
    + reflexivity.
    + constructor; [left; computed | constructor].
    + computed.
    + computed.
    + computed.
    + constructor.
    + computed.
    + computed.
  - apply (Hnext 2026 (text_of "13월 40일 13.40 2/5")
             [(pat_full, parser_full)]
             pat_month_day parser_current_year
             [(pat_dotted, parser_current_year)]
             pat_slashed parser_current_year []
             [text_of "13"; text_of "40"] 2026 13 40
             [text_of "2"; text_of "5"] (Date 2026 2 5)).
    + reflexivity.
    + constructor; [left; computed | constructor].
    + computed.
    + computed.
    + computed.
    + constructor; [| constructor].
      right. exists [text_of "13"; text_of "40"]. split; computed.
    + computed.
    + computed.
  - apply Hnone. computed.
Defined.

(** C9, counterexample.  A non-empty text without a date and the empty
    text give the same value. *)
Lemma parse_date_same_for_empty_and_dateless :
  text_of "오늘의 메뉴" <> []
  /\ parse_date 2026 (text_of "오늘의 메뉴") = parse_date 2026 [].
Proof. split; [vm_compute; discriminate | computed]. Qed.

Lemma parse_date_absent_as_for_empty_witness :
  parse_date 2026 (text_of "13월 40일") = Ret None
  /\ parse_date 2026 [] = Ret None.
Proof.
  apply parse_date_absent_as_for_empty.
  constructor; [left; computed |].
  constructor.
  { right. exists [text_of "13"; text_of "40"]. split; computed. }
  constructor; [left; computed |].
  constructor; [left; computed | constructor].
Defined.


(* ===================================================================== *)
(** * The retry loop: shape of every run                                  *)
(* ===================================================================== *)

Lemma today_menus_nonempty results :
  today_menus results <> [] -> results <> [].
Proof. intros H ->. now apply H. Qed.

(** Every run of the loop from attempt [a] on is a row of sleeping
    attempts closed by one last attempt, which either found a menu of
    today or is attempt [max_retries]. *)
Lemma retry_loop_shape rs world max_retries retry_interval :
  forall remaining a,
    (1 <= remaining)%nat -> (a + remaining = max_retries + 1)%nat ->
    exists n last,
      (a <= n <= max_retries)%nat
      /\ retry_loop rs world max_retries retry_interval remaining a
         = map (slept rs world retry_interval) (seq a (n - a)) ++ [last]
      /\ it_attempt last = n
      /\ it_results last = scrape_all rs (world n)
      /\ (forall j, (a <= j < n)%nat ->
                    today_menus (scrape_all rs (world j)) = [])
      /\ ((today_menus (scrape_all rs (world n)) <> []
           /\ it_action last = Notify (scrape_all rs (world n)))
          \/ (n = max_retries
              /\ today_menus (scrape_all rs (world n)) = []
              /\ it_action last
                 = match scrape_all rs (world n) with
                   | _ :: _ => Notify (scrape_all rs (world n))
                   | [] => NoData
                   end)).
Proof.
  induction remaining as [| remaining IH]; intros a Hrem Hsum; [lia |].
  simpl. destruct (today_menus (scrape_all rs (world a))) as [| m l] eqn:Ht.
  - destruct (Nat.ltb_spec a max_retries) as [Hlt | Hge].
    + destruct (IH (S a) ltac:(lia) ltac:(lia))
        as (n & last & Hn & Hrun & Hlast & Hres & Hnone & Hend).
      exists n, last. split; [lia |]. split.
      { rewrite Hrun. replace (n - a)%nat with (S (n - S a)) by lia.
        reflexivity. }
      do 2 (split; [assumption |]). split; [| assumption].
      intros j Hj. destruct (Nat.eq_dec j a) as [-> | Hne];
        [assumption | apply Hnone; lia].
    + assert (a = max_retries) as -> by lia.
      eexists max_retries, _. rewrite Nat.sub_diag. simpl.
      split; [lia |]. do 3 (split; [reflexivity |]).
      split; [intros j Hj; lia |].
      right. split; [reflexivity |]. split; [assumption | reflexivity].
  - eexists a, _. rewrite Nat.sub_diag. simpl.
    split; [lia |]. do 3 (split; [reflexivity |]).
    split; [intros j Hj; lia |].
    left. split; [congruence | reflexivity].
Qed.

(** X1.  Whatever the collaborators answer, a run with a budget of at
    least one attempt ends: it is [n - 1] attempts that found no menu of
    today, each followed by a sleep of the retry interval, and a last
    attempt [n <= max_retries] that either found a menu of today and
    notified with its results, or is attempt [max_retries], found none,
    and notified with its results if it had any. *)
Theorem polling_run_shape :
  forall rs world max_retries retry_interval,
    (1 <= max_retries)%nat ->
    exists n last,
      (1 <= n <= max_retries)%nat
      /\ polling rs world max_retries retry_interval
         = map (slept rs world retry_interval) (seq 1 (n - 1)) ++ [last]
      /\ it_attempt last = n
      /\ it_results last = scrape_all rs (world n)
      /\ (forall j, (1 <= j < n)%nat ->
                    today_menus (scrape_all rs (world j)) = [])
      /\ ((today_menus (scrape_all rs (world n)) <> []
           /\ it_action last = Notify (scrape_all rs (world n)))
          \/ (n = max_retries
              /\ today_menus (scrape_all rs (world n)) = []
              /\ it_action last
                 = match scrape_all rs (world n) with
                   | _ :: _ => Notify (scrape_all rs (world n))
                   | [] => NoData
                   end)).
Proof.
  intros rs world max_retries retry_interval Hmax.
  apply retry_loop_shape; lia.
Qed.

Lemma polling_notify_inv rs world max_retries retry_interval it sent :
  In it (polling rs world max_retries retry_interval) ->
  it_action it = Notify sent ->
  sent <> []
  /\ sent = scrape_all rs (world (it_attempt it))
  /\ exists before,
       polling rs world max_retries retry_interval = before ++ [it]
       /\ forall it', In it' before -> it_action it' = Sleep retry_interval.
Proof.
  intros Hin Hact.
  destruct max_retries as [| m]; [destruct Hin |].
  destruct (polling_run_shape rs world (S m) retry_interval ltac:(lia))
    as (n & last & Hn & Hrun & Hlast & Hres & Hnone & Hend).
  rewrite Hrun in Hin |- *.
  apply in_app_or in Hin as [Hin | [<- | []]].
  { apply in_map_iff in Hin as (j & <- & _). discriminate Hact. }
  assert (sent = scrape_all rs (world n) /\ sent <> []) as [Hsent Hne].
  { destruct Hend as [[Ht Ha] | (_ & _ & Ha)]; rewrite Ha in Hact.
    - injection Hact as <-. split; [reflexivity |].
      now apply today_menus_nonempty.
    - destruct (scrape_all rs (world n)); [discriminate |].
      injection Hact as <-. split; [reflexivity | discriminate]. }
  split; [assumption |]. split; [now rewrite Hlast |].
  eexists. split; [reflexivity |].
  intros it' Hin'. apply in_map_iff in Hin' as (j & <- & _). reflexivity.
Qed.

(** X2.  A notification is only ever sent by the last attempt of a run,
    after attempts that all ended in a sleep, and never with an empty
    list of records. *)
Theorem polling_notifies_once_nonempty :
  forall rs world max_retries retry_interval it sent,
    In it (polling rs world max_retries retry_interval) ->
    it_action it = Notify sent ->
    sent <> []
    /\ sent = scrape_all rs (world (it_attempt it))
    /\ exists before,
         polling rs world max_retries retry_interval = before ++ [it]
         /\ forall it', In it' before -> it_action it' = Sleep retry_interval.
Proof.
  intros rs world max_retries retry_interval it sent.
  apply polling_notify_inv.
Qed.

Lemma total_sleep_app run1 run2 :
  total_sleep (run1 ++ run2) = total_sleep run1 + total_sleep run2.
Proof.
  unfold total_sleep. induction run1 as [| it run1 IH]; simpl; [lia |].
  rewrite IH. lia.
Qed.

Lemma total_sleep_slept rs world retry_interval a n :
  total_sleep (map (slept rs world retry_interval) (seq a n))
  = retry_interval * Z.of_nat n.
Proof.
  revert a. induction n as [| n IH]; intros a; [simpl; unfold total_sleep; simpl; lia |].
  change (total_sleep (map (slept rs world retry_interval) (seq a (S n))))
    with (retry_interval
          + total_sleep (map (slept rs world retry_interval) (seq (S a) n))).
  rewrite IH. lia.
Qed.

(** X3.  [main] does nothing at all exactly when one of the three
    variables is missing or empty.  Otherwise it makes between one and
    six attempts and sleeps 900 seconds after each but the last: at most
    4500 seconds in a run. *)
Theorem main_attempts_and_sleep :
  forall env world,
    (main env world = []
     <-> unset (SENDER_EMAIL env) || unset (SENDER_PASSWORD env)
         || unset (RECIPIENT_EMAIL env) = true)
    /\ (length (main env world) <= 6)%nat
    /\ (main env world <> [] ->
        total_sleep (main env world)
        = 900 * (Z.of_nat (length (main env world)) - 1))
    /\ 0 <= total_sleep (main env world) <= 4500.
Proof.
  intros env world. unfold main.
  destruct (unset (SENDER_EMAIL env) || unset (SENDER_PASSWORD env)
            || unset (RECIPIENT_EMAIL env)).
  { split; [split; reflexivity |]. split; [simpl; lia |].
    split; [intros H; now contradiction H |].
    unfold total_sleep. simpl. lia. }
  destruct (polling_run_shape restaurants world MAX_RETRIES RETRY_INTERVAL
              ltac:(unfold MAX_RETRIES; lia))
    as (n & last & Hn & Hrun & _ & _ & _ & Hend).
  unfold MAX_RETRIES in Hn.
  assert (sleep_seconds (it_action last) = 0) as Hlast.
  { destruct Hend as [[_ ->] | (_ & _ & ->)]; [reflexivity |].
    now destruct (scrape_all restaurants (world n)). }
  assert (total_sleep (polling restaurants world MAX_RETRIES RETRY_INTERVAL)
          = 900 * Z.of_nat (n - 1)) as Hsleep.
  { rewrite Hrun, total_sleep_app, total_sleep_slept.
    unfold total_sleep at 1. simpl. rewrite Hlast.
    unfold RETRY_INTERVAL. lia. }
  assert (length (polling restaurants world MAX_RETRIES RETRY_INTERVAL) = n)
    as Hlen.
  { rewrite Hrun, length_app, length_map, length_seq. simpl. lia. }
  split; [split |].
  - intros H. rewrite Hrun in H. now destruct (map _ _).
  - discriminate.
  - split; [rewrite Hlen; lia |]. split.
    + intros _. rewrite Hsleep, Hlen. lia.
    + rewrite Hsleep. lia.
Qed.

Lemma polling_single rs world retry_interval :
  map it_action (polling rs world 1 retry_interval)
  = [ match scrape_all rs (world 1%nat) with
      | _ :: _ => Notify (scrape_all rs (world 1%nat))
      | [] => NoData
      end ].
Proof.
  unfold polling. simpl.
  destruct (today_menus (scrape_all rs (world 1%nat))) eqn:Ht; simpl.
  - reflexivity.
  - destruct (scrape_all rs (world 1%nat)); [discriminate | reflexivity].
Qed.

(** X4.  With a budget of one attempt the retry loop does what the
    single-pass [main] of lunch_menu.py does: it notifies with the
    results when there are any and reports no data otherwise. *)
Theorem single_attempt_is_lunch_menu_main :
  forall env world retry_interval,
    unset (SENDER_EMAIL env) || unset (SENDER_PASSWORD env)
    || unset (RECIPIENT_EMAIL env) = false ->
    map it_action (polling restaurants world 1 retry_interval)
    = lunch_menu_main env (world 1%nat).
Proof.
  intros env world retry_interval Henv.
  unfold lunch_menu_main. rewrite Henv, polling_single.
  now destruct (scrape_all restaurants (world 1%nat)).
Qed.

(* ===================================================================== *)
(** * parse_date: what it returns                                         *)
(* ===================================================================== *)

Lemma datetime_Ret y m d dt :
  datetime y m d = Ret dt -> dt = Date y m d /\ valid_date y m d = true.
Proof.
  unfold datetime. destruct (valid_date y m d); [| discriminate].
  now intros [= <-].
Qed.

Lemma parser_full_valid now m d :
  parser_full now m = Ret d ->
  valid_date (year d) (month d) (day d) = true.
Proof.
  unfold parser_full, py_bind.
  destruct (group m 1); [| discriminate].
  destruct (int a); [| discriminate].
  destruct (group m 2); [| discriminate].
  destruct (int a1); [| discriminate].
  destruct (group m 3); [| discriminate].
  destruct (int a3); [| discriminate].
  intros H. now apply datetime_Ret in H as [-> H].
Qed.

Lemma parser_current_year_valid now m d :
  parser_current_year now m = Ret d ->
  valid_date (year d) (month d) (day d) = true.
Proof.
  unfold parser_current_year, py_bind.
  destruct (group m 1); [| discriminate].
  destruct (int a); [| discriminate].
  destruct (group m 2); [| discriminate].
  destruct (int a1); [| discriminate].
  intros H. now apply datetime_Ret in H as [-> H].
Qed.

Lemma try_patterns_valid ps now s d :
  Forall (fun pp => forall m dt,
            snd pp now m = Ret dt ->
            valid_date (year dt) (month dt) (day dt) = true) ps ->
  try_patterns ps now s = Ret (Some d) ->
  valid_date (year d) (month d) (day d) = true.
Proof.
  induction 1 as [| [pat parse] ps Hp _ IH]; simpl; [discriminate |].
  destruct (search pat s) as [m |]; [| assumption].
  destruct (parse now m) as [dt | e] eqn:Hd.
  - intros [= <-]. now apply (Hp m).
  - destruct e; [assumption | discriminate | discriminate].
Qed.

Lemma parse_date_valid now s d :
  parse_date now s = Ret (Some d) ->
  valid_date (year d) (month d) (day d) = true.
Proof.
  apply try_patterns_valid. unfold patterns.
  repeat constructor; simpl; intros m dt H;
    first [ now apply (parser_full_valid now m)
          | now apply (parser_current_year_valid now m) ].
Qed.

Lemma days_in_month_le y m : days_in_month y m <= 31.
Proof.
  unfold days_in_month.
  destruct (m =? 2); [destruct (is_leap y); lia |].
  destruct ((m =? 4) || (m =? 6) || (m =? 9) || (m =? 11)); lia.
Qed.

(** X5.  Whatever the text and the year read from the clock, a date
    returned by [parse_date] is a date of the calendar: year 1..9999,
    month 1..12, day within the month (no 30th of February, no 29th
    outside a leap year). *)
Theorem parse_date_returns_calendar_dates :
  forall now s d,
    parse_date now s = Ret (Some d) ->
    1 <= year d <= 9999 /\ 1 <= month d <= 12
    /\ 1 <= day d <= days_in_month (year d) (month d)
    /\ day d <= 31.
Proof.
  intros now s d H. apply parse_date_valid in H.
  unfold valid_date in H.
  repeat (apply andb_true_iff in H as [H ?]).
  pose proof (days_in_month_le (year d) (month d)). lia.
Qed.

(** The dotted pattern passes over the first two digits of a run of
    four. *)
Lemma dotted_skips_two y1 y2 y3 rest :
  is_digit y1 = true -> is_digit y2 = true -> is_digit y3 = true ->
  match_here pat_dotted (y1 :: y2 :: y3 :: rest) = None.
Proof.
  intros H1 H2 H3. unfold pat_dotted.
  assert (forall y, is_digit y = true -> (y =? DOT)%N = false) as Hdot.
  { intros y Hy. destruct (N.eqb_spec y DOT) as [-> |]; [| reflexivity].
    vm_compute in Hy. discriminate. }
  cbn [match_here run_length]. rewrite H1, H2.
  cbn [Nat.min backtrack Nat.ltb Nat.leb drop fmap option_fmap option_map
       match_here].
  now rewrite (Hdot y3 H3), (Hdot y2 H2).
Qed.

(** X6.  A dotted date written with a four-digit year, [YYYY.MM...], in
    a text that has no 년 and no 월 and no digit before it, is not read as
    that date: the dotted pattern matches the last two digits of the year
    as the month and [MM] as the day.  If that is a date of the current
    year it is returned; otherwise only the slashed pattern is left. *)
Theorem parse_date_dotted_year_misread :
  forall now pre y1 y2 y3 y4 ms rest mo d,
    forallb (fun c => negb (is_digit c)) pre = true ->
    is_digit y1 = true -> is_digit y2 = true ->
    is_digit y3 = true -> is_digit y4 = true ->
    digits 1 2 ms = true ->
    (match rest with [] => true | c :: _ => negb (is_digit c) end) = true ->
    int [y3; y4] = Ret mo -> int ms = Ret d ->
    ~ In NYEON (pre ++ [y1; y2; y3; y4] ++ DOT :: ms ++ rest) ->
    ~ In WOL (pre ++ [y1; y2; y3; y4] ++ DOT :: ms ++ rest) ->
    search pat_dotted (pre ++ [y1; y2; y3; y4] ++ DOT :: ms ++ rest)
    = Some [[y3; y4]; ms]
    /\ parse_date now (pre ++ [y1; y2; y3; y4] ++ DOT :: ms ++ rest)
       = if valid_date now mo d then Ret (Some (Date now mo d))
         else try_patterns [(pat_slashed, parser_current_year)] now
                (pre ++ [y1; y2; y3; y4] ++ DOT :: ms ++ rest).
Proof.
  intros now pre y1 y2 y3 y4 ms rest mo d
    Hpre H1 H2 H3 H4 Hms Hrest Hmo Hd Hny Hwol.
  set (s := pre ++ [y1; y2; y3; y4] ++ DOT :: ms ++ rest) in *.
  assert (search pat_dotted s = Some [[y3; y4]; ms]) as Hsearch.
  { unfold s.
    replace (pre ++ [y1; y2; y3; y4] ++ DOT :: ms ++ rest)
      with ((pre ++ [y1; y2]) ++ ([y3; y4] ++ DOT :: ms ++ rest))
      by (now rewrite <- app_assoc).
    apply search_leftmost.
    - intros j Hj. rewrite length_app in Hj. simpl in Hj.
      rewrite <- app_assoc.
      destruct (Nat.lt_ge_cases j (length pre)) as [Hlt | Hge].
      + apply match_here_needs_digit; [lia |].
        rewrite drop_app_le by lia.
        destruct (drop j pre) as [| c t] eqn:Hdrop.
        { apply (f_equal length) in Hdrop. rewrite length_drop in Hdrop.
          simpl in Hdrop. lia. }
        simpl. rewrite forallb_forall in Hpre. apply Hpre.
        rewrite <- (take_drop j pre), Hdrop.
        apply in_or_app. right. now left.
      + rewrite drop_app_ge by lia.
        assert (j - length pre = 0 \/ j - length pre = 1)%nat
          as [-> | ->] by lia; simpl.
        * now apply dotted_skips_two.
        * now apply dotted_skips_two.
    - unfold pat_dotted.
      apply (match_group_exact 1 2 _ [y3; y4]).
      + unfold digits. simpl. now rewrite H3, H4.
      + reflexivity.
      + rewrite match_lit.
        rewrite <- (app_nil_r [ms]).
        change ([ms] ++ []) with (ms :: []).
        apply match_group_exact; [assumption | assumption | reflexivity]. }
  split; [assumption |].
  assert (search pat_full s = None) as Hfull.
  { destruct (search pat_full s) as [m |] eqn:E; [| reflexivity].
    exfalso. apply Hny. apply (search_lit _ _ _ _ E). simpl. auto. }
  assert (search pat_month_day s = None) as Hmd.
  { destruct (search pat_month_day s) as [m |] eqn:E; [| reflexivity].
    exfalso. apply Hwol. apply (search_lit _ _ _ _ E). simpl. auto. }
  pose proof (try_patterns_skip
                [(pat_full, parser_full);
                 (pat_month_day, parser_current_year)]
                [(pat_dotted, parser_current_year);
                 (pat_slashed, parser_current_year)] now s) as E.
  cbn [app] in E. unfold parse_date, patterns.
  rewrite E
    by (constructor; [now left | constructor; [now left | constructor]]).
  cbn [try_patterns]. rewrite Hsearch.
  unfold parser_current_year, group, datetime. cbn [lookup list_lookup Nat.sub py_bind].
  rewrite Hmo. cbn [py_bind]. rewrite Hd. cbn [py_bind].
  now destruct (valid_date now mo d).
Qed.

(* ===================================================================== *)
(** * strip                                                               *)
(* ===================================================================== *)

Lemma head_rev (t : text) : head (rev t) = last t.
Proof.
  induction t as [| x t _] using rev_ind; [reflexivity |].
  rewrite rev_app_distr, last_snoc. reflexivity.
Qed.

Lemma blanks_rev b : blanks b = true -> blanks (rev b) = true.
Proof.
  unfold blanks. rewrite !forallb_forall. intros H x Hx.
  apply H. now apply in_rev.
Qed.

Lemma lstrip_blanks b t : blanks b = true -> lstrip (b ++ t) = lstrip t.
Proof.
  induction b as [| c b IH]; [reflexivity |]. simpl.
  intros H. apply andb_true_iff in H as [-> H]. now apply IH.
Qed.

Lemma lstrip_fixed t :
  (match t with [] => true | c :: _ => negb (is_space c) end) = true ->
  lstrip t = t.
Proof.
  destruct t as [| c t]; [reflexivity |]. simpl.
  now destruct (is_space c).
Qed.

Lemma lstrip_head s :
  (match lstrip s with [] => true | c :: _ => negb (is_space c) end) = true.
Proof.
  induction s as [| c s IH]; [reflexivity |]. simpl.
  destruct (is_space c) eqn:Hc; [assumption |]. now rewrite Hc.
Qed.

Lemma lstrip_split s : exists b, blanks b = true /\ s = b ++ lstrip s.
Proof.
  induction s as [| c s (b & Hb & Hs)]; [now exists [] |]. simpl.
  destruct (is_space c) eqn:Hc.
  - exists (c :: b). simpl. rewrite Hc, Hb. split; [reflexivity |].
    now rewrite <- Hs.
  - now exists [].
Qed.

Lemma rstrip_blanks t b : blanks b = true -> rstrip (t ++ b) = rstrip t.
Proof.
  intros Hb. unfold rstrip. rewrite rev_app_distr.
  now rewrite lstrip_blanks by now apply blanks_rev.
Qed.

Lemma rstrip_fixed t :
  (match last t with Some c => negb (is_space c) | None => true end) = true ->
  rstrip t = t.
Proof.
  intros H. unfold rstrip. rewrite lstrip_fixed; [apply rev_involutive |].
  rewrite <- head_rev in H. now destruct (rev t).
Qed.

Lemma rstrip_last s :
  (match last (rstrip s) with Some c => negb (is_space c) | None => true end)
  = true.
Proof.
  unfold rstrip. rewrite <- head_rev, rev_involutive.
  pose proof (lstrip_head (rev s)) as H. now destruct (lstrip (rev s)).
Qed.

Lemma rstrip_split s : exists b, blanks b = true /\ s = rstrip s ++ b.
Proof.
  destruct (lstrip_split (rev s)) as (b & Hb & Hs).
  exists (rev b). split; [now apply blanks_rev |].
  unfold rstrip. rewrite <- rev_app_distr, <- Hs. now rewrite rev_involutive.
Qed.

Lemma blanks_head_space (b t : text) c :
  blanks b = true -> b ++ t = c :: t -> is_space c = true.
Proof.
  destruct b as [| x b]; simpl.
  - intros _ H. apply (f_equal length) in H. simpl in H. lia.
  - intros Hb H. apply andb_true_iff in Hb as [Hx _].
    injection H as -> _. assumption.
Qed.

(** Stripping on the right keeps a first character that is no blank. *)
Lemma rstrip_head t :
  (match t with [] => true | c :: _ => negb (is_space c) end) = true ->
  (match rstrip t with [] => true | c :: _ => negb (is_space c) end) = true.
Proof.
  intros H. destruct (rstrip_split t) as (b & Hb & Ht).
  destruct (rstrip t) as [| c r]; [reflexivity |].
  rewrite Ht in H. exact H.
Qed.

Lemma strip_trimmed s : trimmed (strip s) = true.
Proof.
  unfold trimmed, strip. apply andb_true_iff. split.
  - apply rstrip_head, lstrip_head.
  - apply rstrip_last.
Qed.

Lemma strip_fixed t : trimmed t = true -> strip t = t.
Proof.
  unfold trimmed, strip. intros H. apply andb_true_iff in H as [Hh Hl].
  rewrite (lstrip_fixed _ Hh). now apply rstrip_fixed.
Qed.

Lemma strip_blanks b1 t b2 :
  blanks b1 = true -> blanks b2 = true -> trimmed t = true ->
  strip (b1 ++ t ++ b2) = t.
Proof.
  intros H1 H2 Ht. unfold strip. rewrite (lstrip_blanks _ _ H1).
  destruct t as [| c t].
  - simpl. destruct (lstrip_split b2) as (b & Hb & Hs).
    assert (lstrip b2 = []) as ->; [| reflexivity].
    pose proof (lstrip_head b2) as Hh.
    destruct (lstrip b2) as [| x r] eqn:E; [reflexivity |].
    exfalso. unfold blanks in H2. rewrite forallb_forall in H2.
    rewrite (H2 x) in Hh; [discriminate |].
    rewrite Hs. apply in_or_app. right. now left.
  - apply andb_true_iff in Ht as [Hh Hl].
    rewrite lstrip_fixed by exact Hh.
    rewrite (rstrip_blanks _ _ H2). now apply rstrip_fixed.
Qed.

Lemma strip_all_blanks b : blanks b = true -> strip b = [].
Proof.
  intros Hb. rewrite <- (app_nil_r b).
  now apply (strip_blanks b [] []).
Qed.

(* ===================================================================== *)
(** * scrape_menu and the inner loop: what they return                    *)
(* ===================================================================== *)

(** What a returned record is made of. *)
Lemma scrape_menu_inv restaurant w rec :
  scrape_menu restaurant w = Ret (Some rec) ->
  exists html image_url image ocr_text menu_date,
    page w = Some html
    /\ found_image_url w = Ret (Some image_url)
    /\ image_url <> EmptyString
    /\ downloaded w = Some image
    /\ extract_text_from_image (ocr w) = Ret ocr_text
    /\ (exists now t, parse_date now t = Ret menu_date)
    /\ rec = {| r_restaurant := name restaurant;
                r_date := menu_date;
                r_is_today := is_today (today_at_check w) menu_date;
                r_image_url := image_url;
                r_menu_text := ocr_text;
                r_image := image |}.
Proof.
  intros H. unfold scrape_menu in H.
  destruct (page w) as [html |]; [| discriminate].
  destruct (bool_decide (html = EmptyString)); [discriminate |].
  destruct (found_image_url w) as [[image_url |] | e]; simpl in H;
    try discriminate.
  destruct (bool_decide (image_url = EmptyString)) eqn:Hu; [discriminate |].
  apply bool_decide_eq_false in Hu.
  destruct (downloaded w) as [image |]; [| discriminate].
  exists html, image_url, image.
  assert (forall menu_date0,
             (menu_date0 = None
              \/ exists now t, parse_date now t = Ret menu_date0) ->
             py_bind (extract_text_from_image (ocr w))
               (fun ocr_text =>
                  py_bind
                    (if negb (date_in_post restaurant)
                        || bool_decide (menu_date0 = None)
                     then parse_date (year_at_ocr w) ocr_text
                     else Ret menu_date0)
                    (fun menu_date =>
                       Ret (Some
                              {| r_restaurant := name restaurant;
                                 r_date := menu_date;
                                 r_is_today :=
                                   is_today (today_at_check w) menu_date;
                                 r_image_url := image_url;
                                 r_menu_text := ocr_text;
                                 r_image := image |})))
             = Ret (Some rec) ->
             exists ocr_text menu_date,
               Some html = Some html
               /\ Ret (Some image_url) = Ret (Some image_url)
               /\ image_url <> EmptyString
               /\ Some image = Some image
               /\ extract_text_from_image (ocr w) = Ret ocr_text
               /\ (exists now t, parse_date now t = Ret menu_date)
               /\ rec = {| r_restaurant := name restaurant;
                           r_date := menu_date;
                           r_is_today :=
                             is_today (today_at_check w) menu_date;
                           r_image_url := image_url;
                           r_menu_text := ocr_text;
                           r_image := image |}) as Hrest.
  { intros menu_date0 Hprov Hk.
    destruct (extract_text_from_image (ocr w)) as [ocr_text | e];
      simpl in Hk; [| discriminate].
    destruct (negb (date_in_post restaurant)
              || bool_decide (menu_date0 = None)) eqn:Hcond.
    - destruct (parse_date (year_at_ocr w) ocr_text) as [d | e] eqn:Hp;
        simpl in Hk; [| discriminate].
      injection Hk as <-. exists ocr_text, d.
      repeat split; try assumption; eauto.
    - simpl in Hk. injection Hk as <-. exists ocr_text, menu_date0.
      repeat split; try assumption.
      destruct Hprov as [-> | Hprov]; [| assumption].
      rewrite bool_decide_eq_true_2 in Hcond by reflexivity.
      now rewrite orb_true_r in Hcond. }
  destruct (date_in_post restaurant); simpl in H.
  - destruct (post_title w) as [[[| c t] |] | e]; simpl in H;
      try discriminate.
    + apply (Hrest None); [now left | exact H].
    + destruct (parse_date (year_at_title w) (c :: t)) as [d | e] eqn:Hp;
        simpl in H; [| discriminate].
      apply (Hrest d); [right; eauto | exact H].
    + apply (Hrest None); [now left | exact H].
  - apply (Hrest None); [now left | exact H].
Qed.

(** X7.  Every record [scrape_menu] returns carries the name of the
    restaurant it was asked for, the non-empty image URL and the image
    the collaborators gave, the OCR text, and a today flag that agrees
    with its date: a record flagged as today's always has a date, equal
    to the current date, and any date it has is a date of the calendar. *)
Theorem scrape_menu_record_consistent :
  forall restaurant w rec,
    scrape_menu restaurant w = Ret (Some rec) ->
    r_restaurant rec = name restaurant
    /\ found_image_url w = Ret (Some (r_image_url rec))
    /\ r_image_url rec <> EmptyString
    /\ downloaded w = Some (r_image rec)
    /\ extract_text_from_image (ocr w) = Ret (r_menu_text rec)
    /\ r_is_today rec = is_today (today_at_check w) (r_date rec)
    /\ (r_is_today rec = true -> r_date rec = Some (today_at_check w))
    /\ (forall d, r_date rec = Some d ->
                  valid_date (year d) (month d) (day d) = true).
Proof.
  intros restaurant w rec H.
  apply scrape_menu_inv in H
    as (html & image_url & image & ocr_text & menu_date
        & Hp & Hu & Hne & Hd & Ho & (now & t & Hdate) & ->).
  simpl. repeat split; try assumption.
  - destruct menu_date as [d |]; simpl; [| discriminate].
    intros Hb. apply bool_decide_eq_true in Hb. now subst.
  - intros d ->. now apply (parse_date_valid now t).
Qed.


(** X9.  The results of an attempt follow the order of the configured
    restaurants and hold at most one record for each: their restaurant
    names form a sub-sequence of the configured names.  So there are
    never more records than restaurants, and with distinct restaurant
    names no two records bear the same name. *)
Theorem scrape_all_follows_configuration :
  forall rs w,
    map r_restaurant (scrape_all rs w) `sublist_of` map name rs
    /\ (length (scrape_all rs w) <= length rs)%nat
    /\ (NoDup (map name rs) -> NoDup (map r_restaurant (scrape_all rs w))).
Proof.
  intros rs w.
  assert (map r_restaurant (scrape_all rs w) `sublist_of` map name rs) as H.
  { induction rs as [| r rs IH]; simpl; [constructor |].
    destruct (scrape_menu r (w r)) as [[rec |] | e] eqn:Hr.
    - simpl. apply scrape_menu_inv in Hr
        as (? & ? & ? & ? & ? & _ & _ & _ & _ & _ & _ & ->).
      simpl. now apply sublist_skip.
    - now apply sublist_cons.
    - now apply sublist_cons. }
  split; [assumption |]. split.
  - apply sublist_length in H. now rewrite !length_map in H.
  - intros Hnd. eapply sublist_NoDup; eassumption.
Qed.

(** X10.  [extract_post_date] gives a title without surrounding
    whitespace, unchanged if it had none; a title made only of whitespace
    becomes the empty string, which [scrape_menu] treats exactly like a
    missing title. *)
Theorem extract_post_date_strips :
  (forall t, exists t', extract_post_date (Some t) = Some t'
                        /\ trimmed t' = true)
  /\ (forall t, trimmed t = true -> extract_post_date (Some t) = Some t)
  /\ (forall b1 t b2,
        blanks b1 = true -> blanks b2 = true -> trimmed t = true ->
        extract_post_date (Some (b1 ++ t ++ b2)) = Some t)
  /\ (forall restaurant w b,
        blanks b = true ->
        scrape_menu restaurant
          (with_post_title w (Ret (extract_post_date (Some b))))
        = scrape_menu restaurant (with_post_title w (Ret None))).
Proof.
  split; [| split; [| split]].
  - intros t. exists (strip t). split; [reflexivity | apply strip_trimmed].
  - intros t Ht. simpl. now rewrite strip_fixed.
  - intros b1 t b2 H1 H2 Ht. simpl. now rewrite strip_blanks.
  - intros restaurant w b Hb. simpl. now rewrite (strip_all_blanks _ Hb).
Qed.

(* ===================================================================== *)
(** * extract_image_url: the two patterns                                 *)
(* ===================================================================== *)

#[local] Arguments text_of : simpl never.

Lemma prefix_rest_app lit s : prefix_rest lit (lit ++ s) = Some s.
Proof.
  induction lit as [| c lit IH]; [reflexivity |]. simpl.
  now rewrite N.eqb_refl.
Qed.

Lemma prefix_rest_Some lit : forall s rest,
  prefix_rest lit s = Some rest -> s = lit ++ rest.
Proof.
  induction lit as [| c lit IH]; intros s rest H; simpl in H.
  - now injection H as ->.
  - destruct s as [| x s]; [discriminate |].
    destruct (N.eqb_spec x c) as [-> |]; [| discriminate].
    simpl. f_equal. now apply IH.
Qed.

Lemma contains_false_prefix lit : forall s j,
  contains lit s = false -> prefix_rest lit (drop j s) = None.
Proof.
  induction s as [| c s IH]; intros j H; simpl in H.
  - rewrite drop_nil. destruct (prefix_rest lit []); [discriminate |].
    reflexivity.
  - destruct (prefix_rest lit (c :: s)) eqn:E; [discriminate |].
    destruct j as [| j]; [exact E |]. simpl. now apply IH.
Qed.

Lemma lazy_until_close_clean : forall s u,
  lazy_until_close s = Some u -> ~ In RPAREN u /\ ~ In NEWLINE u.
Proof.
  induction s as [| c s IH]; intros u H; simpl in H.
  - discriminate.
  - destruct ((is_quote c && at_rparen s) || (c =? RPAREN)%N) eqn:Hclose.
    + injection H as <-. split; intros [].
    + apply orb_false_iff in Hclose as [_ Hc].
      destruct (N.eqb_spec c NEWLINE) as [| Hnl]; [discriminate |].
      destruct (lazy_until_close s) as [u' |] eqn:Hu; [| discriminate].
      injection H as <-. destruct (IH _ eq_refl) as [H1 H2].
      apply N.eqb_neq in Hc.
      split; intros [Heq | Hin]; congruence || (try now apply H1)
                                             || (try now apply H2).
Qed.

Lemma match_url_here_clean s u :
  match_url_here s = Some u ->
  ~ In RPAREN u /\ ~ In NEWLINE u /\ exists rest, s = text_of "url(" ++ rest.
Proof.
  unfold match_url_here.
  destruct (prefix_rest (text_of "url(") s) as [s1 |] eqn:Hp;
    [| discriminate].
  apply prefix_rest_Some in Hp. intros H.
  assert (~ In RPAREN u /\ ~ In NEWLINE u) as [H1 H2].
  { destruct s1 as [| q s2].
    - now apply (lazy_until_close_clean []).
    - destruct (is_quote q).
      + destruct (lazy_until_close s2) as [g |] eqn:Hg.
        * injection H as <-. now apply (lazy_until_close_clean s2).
        * now apply (lazy_until_close_clean (q :: s2)).
      + now apply (lazy_until_close_clean (q :: s2)). }
  repeat split; try assumption. now exists s1.
Qed.

Lemma search_url_Some : forall s u,
  search_url s = Some u ->
  exists i, match_url_here (drop i s) = Some u.
Proof.
  induction s as [| c s IH]; intros u H; cbn [search_url] in H.
  - destruct (match_url_here []) eqn:E; [| discriminate].
    exists 0%nat. rewrite drop_0. congruence.
  - destruct (match_url_here (c :: s)) eqn:E.
    + exists 0%nat. rewrite drop_0. congruence.
    + destruct (IH _ H) as [i Hi]. now exists (S i).
Qed.

Lemma search_url_leftmost pre : forall rest u,
  (forall j, (j < length pre)%nat ->
             match_url_here (drop j (pre ++ rest)) = None) ->
  match_url_here rest = Some u ->
  search_url (pre ++ rest) = Some u.
Proof.
  induction pre as [| c pre IH]; intros rest u Hno Hm.
  - destruct rest; cbn [app search_url]; now rewrite Hm.
  - pose proof (Hno 0%nat ltac:(simpl; lia)) as H0. rewrite drop_0 in H0.
    cbn [app search_url] in *. rewrite H0. apply IH; [| assumption].
    intros j Hj. apply (Hno (S j)). simpl. lia.
Qed.

(** X11.  The URL taken from a [style] attribute never contains a
    closing parenthesis or a newline, and it is taken only from a text
    that contains [url(]; without [url(] in the attribute, or without the
    attribute, no URL is found. *)
Theorem post_image_url_clean :
  (forall style u,
      post_image_url (Some style) = Some u ->
      ~ In RPAREN u /\ ~ In NEWLINE u
      /\ contains (text_of "url(") style = true)
  /\ (forall style,
      contains (text_of "url(") style = false ->
      post_image_url (Some style) = None)
  /\ post_image_url None = None.
Proof.
  assert (forall style u,
             search_url style = Some u ->
             ~ In RPAREN u /\ ~ In NEWLINE u
             /\ contains (text_of "url(") style = true) as Hclean.
  { intros style u H. apply search_url_Some in H as [i Hi].
    apply match_url_here_clean in Hi as (H1 & H2 & rest & Hrest).
    repeat split; try assumption.
    destruct (contains (text_of "url(") style) eqn:Hc; [reflexivity |].
    apply (contains_false_prefix _ _ i) in Hc.
    rewrite Hrest, prefix_rest_app in Hc. discriminate. }
  split; [exact Hclean | split; [| reflexivity]].
  intros style Hc. simpl.
  destruct (search_url style) as [u |] eqn:E; [| reflexivity].
  apply Hclean in E as (_ & _ & E). congruence.
Qed.

Lemma lazy_until_close_app u : forall tail,
  forallb (fun c => negb (c =? RPAREN)%N && negb (c =? NEWLINE)%N) u = true ->
  (match last u with Some c => negb (is_quote c) | None => true end) = true ->
  match_close tail = true ->
  lazy_until_close (u ++ tail) = Some u.
Proof.
  induction u as [| c u IH]; intros tail Hu Hlast Htail.
  - simpl. destruct tail as [| x tail]; [discriminate |].
    simpl in *. now rewrite Htail.
  - simpl in Hu. apply andb_true_iff in Hu as [Hc Hu].
    apply andb_true_iff in Hc as [Hrp Hnl].
    apply negb_true_iff in Hrp, Hnl.
    cbn [app lazy_until_close match_close at_rparen].
    rewrite Hrp, Hnl, orb_false_r.
    assert (is_quote c && at_rparen (u ++ tail) = false) as ->.
    { destruct u as [| c' u].
      - simpl in Hlast. apply negb_true_iff in Hlast. now rewrite Hlast.
      - simpl in Hu. apply andb_true_iff in Hu as [Hc' _].
        apply andb_true_iff in Hc' as [Hrp' _].
        apply negb_true_iff in Hrp'. simpl. rewrite Hrp'.
        apply andb_false_r. }
    rewrite IH; [reflexivity | assumption | | assumption].
    destruct u as [| c' u]; [reflexivity |].
    now rewrite last_cons_cons in Hlast.
Qed.

Lemma match_close_optional_quote q2 post :
  optional_quote q2 = true -> match_close (q2 ++ RPAREN :: post) = true.
Proof.
  destruct q2 as [| c [| c' q2]]; simpl; try discriminate.
  - reflexivity.
  - intros ->. reflexivity.
Qed.

(** X12.  A URL without closing parenthesis or newline, and without a
    quote at its start or end, is given back exactly from [url(U)],
    whether or not it is wrapped in quotes (of either kind, even
    unpaired), whatever follows the closing parenthesis and whatever
    precedes [url(] as long as no match starts there. *)
Theorem post_image_url_round_trip :
  forall pre q1 u q2 post,
    optional_quote q1 = true -> optional_quote q2 = true ->
    capturable u = true ->
    (forall j, (j < length pre)%nat ->
       match_url_here
         (drop j (pre ++ text_of "url(" ++ q1 ++ u ++ q2 ++ RPAREN :: post))
       = None) ->
    post_image_url
      (Some (pre ++ text_of "url(" ++ q1 ++ u ++ q2 ++ RPAREN :: post))
    = Some u.
Proof.
  intros pre q1 u q2 post Hq1 Hq2 Hu Hleft. cbn [post_image_url].
  apply search_url_leftmost; [assumption |].
  unfold match_url_here. rewrite prefix_rest_app.
  unfold capturable in Hu.
  apply andb_true_iff in Hu as [Hu Hlast].
  apply andb_true_iff in Hu as [Hu Hhead].
  pose proof (lazy_until_close_app u (q2 ++ RPAREN :: post) Hu Hlast
                (match_close_optional_quote q2 post Hq2)) as Hlazy.
  destruct q1 as [| q [| q' q1]]; simpl in Hq1; try discriminate.
  - cbn [app]. destruct u as [| c u].
    + cbn [app] in *. rewrite Hlazy.
      destruct q2 as [| x [| x' q2]]; simpl in Hq2; try discriminate.
      * simpl. reflexivity.
      * cbn [app]. rewrite Hq2. reflexivity.
    + cbn [app] in *. apply negb_true_iff in Hhead. rewrite Hhead.
      exact Hlazy.
  - cbn [app]. rewrite Hq1, Hlazy. reflexivity.
Qed.

Lemma lazy_until_end_app v : forall nl,
  forallb (fun c => negb (c =? NEWLINE)%N) v = true ->
  at_end nl = true ->
  lazy_until_end (v ++ nl) = Some v.
Proof.
  induction v as [| c v IH]; intros nl Hv Hnl.
  - simpl. destruct nl as [| x [| y nl]]; simpl in *; try discriminate.
    + reflexivity.
    + now rewrite Hnl.
  - simpl in Hv. apply andb_true_iff in Hv as [Hc Hv].
    apply negb_true_iff in Hc.
    assert (at_end (c :: v ++ nl) = false) as Hend.
    { simpl. destruct (v ++ nl); [exact Hc | reflexivity]. }
    cbn [app]. cbn [lazy_until_end]. rewrite Hend, Hc.
    now rewrite IH.
Qed.

Lemma search_fname_leftmost pre : forall rest v,
  (forall j, (j < length pre)%nat ->
             match_fname_here (drop j (pre ++ rest)) = None) ->
  match_fname_here rest = Some v ->
  search_fname (pre ++ rest) = Some v.
Proof.
  induction pre as [| c pre IH]; intros rest v Hno Hm.
  - destruct rest; cbn [app search_fname]; now rewrite Hm.
  - pose proof (Hno 0%nat ltac:(simpl; lia)) as H0. rewrite drop_0 in H0.
    cbn [app search_fname] in *. rewrite H0. apply IH; [| assumption].
    intros j Hj. apply (Hno (S j)). simpl. lia.
Qed.

Lemma contains_prefix lit s r :
  prefix_rest lit s = Some r -> contains lit s = true.
Proof. intros H. destruct s; cbn [contains]; now rewrite H. Qed.

Lemma contains_app_prefix lit pre rest :
  contains lit (pre ++ lit ++ rest) = true.
Proof.
  induction pre as [| c pre IH]; cbn [app].
  - apply (contains_prefix _ _ rest), prefix_rest_app.
  - cbn [contains].
    destruct (prefix_rest lit (c :: pre ++ lit ++ rest)); [reflexivity |].
    exact IH.
Qed.

(** X13.  In lunch_menu.py the profile image of 원테이블 is located by
    the first [fname=] of the [src] attribute: everything after it up to
    the end of the attribute (a final newline apart) is unquoted and
    returned; a [src] without [fname=] is returned as it is, and without
    a [src] nothing is returned. *)
Theorem profile_image_url_takes_fname :
  forall unquote,
    (forall pre v nl,
        forallb (fun c => negb (c =? NEWLINE)%N) v = true ->
        at_end nl = true ->
        (forall j, (j < length pre)%nat ->
           prefix_rest (text_of "fname=")
             (drop j (pre ++ text_of "fname=" ++ v ++ nl)) = None) ->
        profile_image_url unquote
          (Some (pre ++ text_of "fname=" ++ v ++ nl))
        = Some (unquote v))
    /\ (forall src,
        contains (text_of "fname=") src = false ->
        profile_image_url unquote (Some src) = Some src)
    /\ profile_image_url unquote None = None.
Proof.
  intros unquote. split; [| split; [| reflexivity]].
  - intros pre v nl Hv Hnl Hleft. unfold profile_image_url.
    rewrite contains_app_prefix.
    rewrite (search_fname_leftmost pre _ v); [reflexivity | |].
    + intros j Hj. unfold match_fname_here. now rewrite Hleft.
    + unfold match_fname_here. rewrite prefix_rest_app.
      now apply lazy_until_end_app.
  - intros src Hc. unfold profile_image_url. now rewrite Hc.
Qed.

(* ===================================================================== *)
(** * send_menu_notification                                              *)
(* ===================================================================== *)

Lemma In_lstrip x s : In x (lstrip s) -> In x s.
Proof.
  destruct (lstrip_split s) as (b & _ & Hs). intros H.
  rewrite Hs. apply in_or_app. now right.
Qed.

Lemma In_strip x s : In x (strip s) -> In x s.
Proof.
  unfold strip. intros H. apply In_lstrip.
  destruct (rstrip_split (lstrip s)) as (b & _ & Hs).
  rewrite Hs. apply in_or_app. now left.
Qed.

Lemma before_first_clean sep s : ~ In sep (before_first sep s).
Proof.
  induction s as [| c s IH]; simpl; [tauto |].
  destruct (N.eqb_spec c sep) as [| Hne]; [intros [] |].
  intros [Heq | Hin]; [congruence | now apply IH].
Qed.

Lemma before_first_app sep x rest :
  ~ In sep x -> (rest = [] \/ exists p, rest = sep :: p) ->
  before_first sep (x ++ rest) = x.
Proof.
  intros Hx Hrest. induction x as [| c x IH]; simpl.
  - destruct Hrest as [-> | [p ->]]; [reflexivity |]. simpl.
    now rewrite N.eqb_refl.
  - destruct (N.eqb_spec c sep) as [-> | Hne].
    + exfalso. apply Hx. now left.
    + f_equal. apply IH. intros H. apply Hx. now right.
Qed.

Lemma after_first_app sep x rest :
  ~ In sep x -> after_first sep (x ++ sep :: rest) = rest.
Proof.
  intros Hx. induction x as [| c x IH]; simpl.
  - now rewrite N.eqb_refl.
  - destruct (N.eqb_spec c sep) as [-> | Hne].
    + exfalso. apply Hx. now left.
    + apply IH. intros H. apply Hx. now right.
Qed.

Lemma blanks_no_semicolon b : blanks b = true -> ~ In SEMICOLON b.
Proof.
  unfold blanks. rewrite forallb_forall. intros H Hin.
  apply H in Hin. vm_compute in Hin. discriminate.
Qed.

(** X14.  The image subtype computed from a Content-Type value never
    contains a semicolon and never starts or ends with whitespace; a
    value without a slash, and a missing header, give [jpeg]. *)
Theorem mime_subtype_clean :
  forall content_type,
    ~ In SEMICOLON (mime_subtype content_type)
    /\ trimmed (mime_subtype content_type) = true
    /\ (~ In SLASH content_type ->
        mime_subtype content_type = text_of "jpeg")
    /\ mime_subtype (content_type_of None) = text_of "jpeg".
Proof.
  intros ct. unfold mime_subtype at 1 2 3.
  destruct (existsb (N.eqb SLASH) ct) eqn:Hs.
  - split; [| split; [| split]].
    + intros H. apply In_strip in H. now apply before_first_clean in H.
    + apply strip_trimmed.
    + intros Hno. exfalso. apply existsb_exists in Hs as (x & Hx & Heq).
      apply N.eqb_eq in Heq. subst x. now apply Hno.
    + vm_compute. reflexivity.
  - split; [| split; [| split]].
    + vm_compute. intros H.
      repeat (destruct H as [H | H]; [discriminate H |]). exact H.
    + vm_compute. reflexivity.
    + reflexivity.
    + vm_compute. reflexivity.
Qed.

(** X15.  From a Content-Type value [type/subtype], with optional
    whitespace around the subtype and optional parameters after a
    semicolon, exactly the subtype is taken. *)
Theorem mime_subtype_round_trip :
  forall ty b1 sub b2 params,
    ~ In SLASH ty -> blanks b1 = true -> blanks b2 = true ->
    trimmed sub = true -> ~ In SEMICOLON sub ->
    (params = [] \/ exists p, params = SEMICOLON :: p) ->
    mime_subtype (ty ++ SLASH :: b1 ++ sub ++ b2 ++ params) = sub.
Proof.
  intros ty b1 sub b2 params Hty Hb1 Hb2 Hsub Hsemi Hparams.
  unfold mime_subtype.
  assert (existsb (N.eqb SLASH) (ty ++ SLASH :: b1 ++ sub ++ b2 ++ params)
          = true) as ->.
  { apply existsb_exists. exists SLASH. split; [| apply N.eqb_refl].
    apply in_or_app. right. now left. }
  rewrite (after_first_app _ _ _ Hty).
  replace (b1 ++ sub ++ b2 ++ params) with ((b1 ++ sub ++ b2) ++ params)
    by (now rewrite <- !app_assoc).
  rewrite before_first_app; [now apply strip_blanks | | assumption].
  intros H. apply in_app_or in H as [H | H];
    [now apply (blanks_no_semicolon b1) |].
  apply in_app_or in H as [H | H];
    [now apply Hsemi | now apply (blanks_no_semicolon b2)].
Qed.

Lemma attach_images_spec fetch : forall today i a,
  In a (attach_images fetch i today) ->
  exists k m response,
    content_id a = (i + k)%nat /\ today !! k = Some m
    /\ fetch (i + k)%nat m = Some response
    /\ subtype a = mime_subtype (content_type_of (content_type response))
    /\ payload a = content response.
Proof.
  induction today as [| menu rest IH]; intros i a Hin; [destruct Hin |].
  simpl in Hin.
  assert (In a (attach_images fetch (S i) rest) ->
          exists k m response,
            content_id a = (i + k)%nat /\ (menu :: rest) !! k = Some m
            /\ fetch (i + k)%nat m = Some response
            /\ subtype a
               = mime_subtype (content_type_of (content_type response))
            /\ payload a = content response) as Htail.
  { intros H. destruct (IH _ _ H) as (k & m & resp & Hid & Hk & Hf & Hrest).
    exists (S k), m, resp. rewrite <- Nat.add_succ_comm.
    repeat split; try assumption; tauto. }
  destruct (fetch i menu) as [response |] eqn:Hf; [| now apply Htail].
  destruct Hin as [<- | Hin]; [| now apply Htail].
  exists 0%nat, menu, response. rewrite Nat.add_0_r. simpl.
  repeat split; try reflexivity. assumption.
Qed.

Lemma attach_images_complete fetch : forall today i k m response,
  today !! k = Some m -> fetch (i + k)%nat m = Some response ->
  exists a, In a (attach_images fetch i today)
            /\ content_id a = (i + k)%nat.
Proof.
  induction today as [| menu rest IH]; intros i k m response Hk Hf;
    [discriminate |].
  destruct k as [| k]; simpl in Hk.
  - injection Hk as ->. rewrite Nat.add_0_r in *. simpl. rewrite Hf.
    eexists. split; [now left | reflexivity].
  - rewrite <- Nat.add_succ_comm in *.
    destruct (IH (S i) k m response Hk Hf) as (a & Hin & Hid).
    exists a. split; [| assumption]. simpl.
    destruct (fetch i menu); [now right | assumption].
Qed.

Lemma attach_images_sorted fetch : forall today i,
  Sorted.StronglySorted lt (map content_id (attach_images fetch i today))
  /\ Forall (fun n => (i <= n)%nat)
            (map content_id (attach_images fetch i today))
  /\ (length (attach_images fetch i today) <= length today)%nat.
Proof.
  induction today as [| menu rest IH]; intros i; simpl.
  - repeat split; constructor.
  - destruct (IH (S i)) as (Hs & Hge & Hlen).
    destruct (fetch i menu); simpl.
    + repeat split.
      * constructor; [assumption |].
        eapply Forall_impl; [exact Hge |]. simpl. intros n Hn. lia.
      * constructor; [lia |].
        eapply Forall_impl; [exact Hge |]. simpl. intros n Hn. lia.
      * lia.
    + repeat split; [assumption | | lia].
      eapply Forall_impl; [exact Hge |]. simpl. intros n Hn. lia.
Qed.

(** X16.  The images attached to a notification: each attachment
    belongs to one block of today's menus, its Content-ID is the index
    of that block, its subtype is read off the Content-Type of the
    download and its body is the downloaded one; a block has its
    attachment whenever its download succeeds; Content-IDs increase
    strictly (no two attachments share one), and there are never more
    attachments than blocks. *)
Theorem attachments_match_today_blocks :
  forall fetch menu_results,
    (forall a, In a (attachments fetch menu_results) ->
       exists m response,
         today_menus menu_results !! content_id a = Some m
         /\ r_is_today m = true
         /\ fetch (content_id a) m = Some response
         /\ subtype a
            = mime_subtype (content_type_of (content_type response))
         /\ payload a = content response)
    /\ (forall i m response,
         today_menus menu_results !! i = Some m ->
         fetch i m = Some response ->
         exists a, In a (attachments fetch menu_results)
                   /\ content_id a = i)
    /\ Sorted.StronglySorted lt (map content_id (attachments fetch menu_results))
    /\ (length (attachments fetch menu_results)
        <= length (today_menus menu_results))%nat.
Proof.
  intros fetch menu_results. unfold attachments.
  split; [| split; [| split]].
  - intros a Hin.
    apply attach_images_spec in Hin
      as (k & m & resp & Hid & Hk & Hf & Hsub & Hpay).
    simpl in Hid, Hf. rewrite Hid. exists m, resp.
    repeat split; try assumption.
    assert (In m (today_menus menu_results)) as Hm.
    { apply list_elem_of_In. now apply (list_elem_of_lookup_2 _ k). }
    unfold today_menus in Hm. now apply filter_In in Hm.
  - intros i m response Hi Hf.
    now apply (attach_images_complete fetch _ 0 i m response).
  - apply attach_images_sorted.
  - apply attach_images_sorted.
Qed.

(** X17.  The two parts of the message split the records: every record
    passed to [send_menu_notification] is in exactly one of the two
    lists, by its today flag, in the order received; the paragraph for
    "no menu found" is written exactly when no record was passed. *)
Theorem notification_parts_split_records :
  forall menu_results,
    Permutation (today_menus menu_results ++ old_menus menu_results)
      menu_results
    /\ (forall m, In m (today_menus menu_results)
                  <-> In m menu_results /\ r_is_today m = true)
    /\ (forall m, In m (old_menus menu_results)
                  <-> In m menu_results /\ r_is_today m = false)
    /\ (not_found_shown menu_results = true <-> menu_results = []).
Proof.
  intros rs. unfold today_menus, old_menus, not_found_shown, today_menus,
    old_menus.
  split; [| split; [| split]].
  - induction rs as [| m rs IH]; simpl; [constructor |].
    destruct (r_is_today m); simpl.
    + now constructor.
    + rewrite <- Permutation_middle. now constructor.
  - intros m. apply filter_In.
  - intros m. rewrite filter_In, negb_true_iff. reflexivity.
  - destruct rs as [| m rs]; simpl; [tauto |].
    destruct (r_is_today m); simpl.
    + split; discriminate.
    + destruct (List.filter r_is_today rs); split; discriminate.
Qed.

(** X18.  Neither [main] ever calls [send_menu_notification] without a
    record: in every notification sent by the retry loop or by the
    single pass of lunch_menu.py, the "no menu found" paragraph is not
    written. *)
Theorem mains_never_send_empty_digest :
  (forall rs world max_retries retry_interval it sent,
      In it (polling rs world max_retries retry_interval) ->
      it_action it = Notify sent ->
      not_found_shown sent = false)
  /\ (forall env world sent,
      In (Notify sent) (lunch_menu_main env world) ->
      not_found_shown sent = false).
Proof.
  assert (forall sent, sent <> [] -> not_found_shown sent = false) as Hne.
  { intros [| m sent] H; [congruence |].
    unfold not_found_shown, today_menus, old_menus. simpl.
    destruct (r_is_today m); simpl; [reflexivity |].
    now destruct (List.filter r_is_today sent). }
  split.
  - intros rs world max_retries retry_interval it sent Hin Hact.
    apply Hne. now apply (polling_notify_inv _ _ _ _ _ _ Hin Hact).
  - intros env world sent Hin. apply Hne. unfold lunch_menu_main in Hin.
    destruct (unset (SENDER_EMAIL env) || unset (SENDER_PASSWORD env)
              || unset (RECIPIENT_EMAIL env)); [destruct Hin |].
    destruct (scrape_all restaurants world) eqn:E; simpl in Hin.
    + destruct Hin as [Hin | []]. discriminate.
    + destruct Hin as [Hin | []]. injection Hin as <-. discriminate.
Qed.

(* ===================================================================== *)
(** * parse_date and the script of the digits                             *)
(* ===================================================================== *)

Lemma same_digit_decimal c c' : same_digit c c' -> decimal c = decimal c'.
Proof. intros [-> | [_ H]]; [reflexivity | assumption]. Qed.

Lemma same_digit_is_digit c c' : same_digit c c' -> is_digit c = is_digit c'.
Proof. intros H. unfold is_digit. now rewrite (same_digit_decimal _ _ H). Qed.

Lemma same_digit_is_space c c' : same_digit c c' -> is_space c = is_space c'.
Proof.
  intros H. destruct H as [-> | [Hd He]]; [reflexivity |].
  assert (is_digit c' = true) as Hd'.
  { unfold is_digit in *. now rewrite <- He. }
  now rewrite (digit_not_space _ Hd), (digit_not_space _ Hd').
Qed.

Lemma same_digit_lit c c' l :
  is_digit l = false -> same_digit c c' -> (c =? l)%N = (c' =? l)%N.
Proof.
  intros Hl H. destruct H as [-> | [Hd He]]; [reflexivity |].
  assert (is_digit c' = true) as Hd'.
  { unfold is_digit in *. now rewrite <- He. }
  destruct (N.eqb_spec c l) as [-> |]; [congruence |].
  destruct (N.eqb_spec c' l) as [-> |]; [congruence | reflexivity].
Qed.

Lemma same_reading_run_length f s s' :
  (forall c c', same_digit c c' -> f c = f c') ->
  same_reading s s' -> run_length f s = run_length f s'.
Proof.
  intros Hf. induction 1 as [| c c' s s' Hc _ IH]; simpl; [reflexivity |].
  rewrite (Hf _ _ Hc). now rewrite IH.
Qed.

Lemma backtrack_same (k k' : nat -> option (list text)) lo : forall n,
  (forall i, same_match (k i) (k' i)) ->
  same_match (backtrack k lo n) (backtrack k' lo n).
Proof.
  intros n Hk. induction n as [| n IH]; simpl.
  - destruct (0 <? lo)%nat; [exact I |].
    specialize (Hk 0%nat). now destruct (k 0%nat), (k' 0%nat).
  - destruct (S n <? lo)%nat; [exact I |].
    pose proof (Hk (S n)) as H. now destruct (k (S n)), (k' (S n)).
Qed.

Lemma match_here_same p :
  Forall (fun a => match a with Lit l => is_digit l = false | _ => True end)
    p ->
  forall s s', same_reading s s' ->
               same_match (match_here p s) (match_here p s').
Proof.
  induction 1 as [| a p Ha _ IH]; intros s s' Hs; simpl.
  - constructor.
  - destruct a as [lo hi | l |].
    + rewrite (same_reading_run_length is_digit s s'
                 same_digit_is_digit Hs).
      apply backtrack_same. intros i.
      pose proof (IH (drop i s) (drop i s') (Forall2_drop _ _ _ i Hs)) as H.
      destruct (match_here p (drop i s)), (match_here p (drop i s'));
        simpl in *; try contradiction; [| exact I].
      constructor; [| assumption]. now apply Forall2_take.
    + destruct Hs as [| c c' s s' Hc Hs]; [exact I |].
      rewrite (same_digit_lit _ _ _ Ha Hc).
      destruct (c' =? l)%N; [now apply IH | exact I].
    + rewrite (same_reading_run_length is_space s s'
                 same_digit_is_space Hs).
      apply backtrack_same. intros i.
      apply IH. now apply Forall2_drop.
Qed.

Lemma search_same p :
  Forall (fun a => match a with Lit l => is_digit l = false | _ => True end)
    p ->
  forall s s', same_reading s s' ->
               same_match (search p s) (search p s').
Proof.
  intros Hp s s' Hs.
  induction Hs as [| c c' s s' Hc Hs IH].
  - simpl.
    pose proof (match_here_same p Hp [] [] ltac:(constructor)) as H.
    now destruct (match_here p []).
  - pose proof (match_here_same p Hp (c :: s) (c' :: s')
                  ltac:(now constructor)) as H.
    cbn [search].
    destruct (match_here p (c :: s)), (match_here p (c' :: s'));
      simpl in *; try contradiction; assumption.
Qed.

Lemma int_digits_same s s' :
  same_reading s s' -> forall acc, int_digits acc s = int_digits acc s'.
Proof.
  induction 1 as [| c c' s s' Hc _ IH]; intros acc; simpl; [reflexivity |].
  rewrite (same_digit_decimal _ _ Hc). destruct (decimal c'); [apply IH |].
  reflexivity.
Qed.

Lemma int_same s s' : same_reading s s' -> int s = int s'.
Proof.
  intros H. destruct H as [| c c' s s' Hc Hs]; [reflexivity |].
  unfold int. apply int_digits_same. now constructor.
Qed.

Lemma group_same m m' k :
  Forall2 same_reading m m' ->
  match group m k, group m' k with
  | Ret g, Ret g' => same_reading g g'
  | Raise e, Raise e' => e = e'
  | _, _ => False
  end.
Proof.
  intros H. unfold group.
  destruct (m !! (k - 1)%nat) as [g |] eqn:Hg.
  - destruct (Forall2_lookup_l same_reading m m' (k - 1)%nat g H Hg)
      as (g' & -> & Hgg).
    exact Hgg.
  - destruct (m' !! (k - 1)%nat) as [g' |] eqn:Hg'; [| reflexivity].
    destruct (Forall2_lookup_r same_reading m m' (k - 1)%nat g' H Hg')
      as (g & Hg0 & _).
    congruence.
Qed.

Lemma parser_full_same now m m' :
  Forall2 same_reading m m' -> parser_full now m = parser_full now m'.
Proof.
  intros H. unfold parser_full.
  pose proof (group_same m m' 1 H) as H1.
  pose proof (group_same m m' 2 H) as H2.
  pose proof (group_same m m' 3 H) as H3.
  destruct (group m 1), (group m' 1); try contradiction;
    [| now subst]. simpl. rewrite (int_same _ _ H1).
  destruct (int a0); [| reflexivity]. simpl.
  destruct (group m 2), (group m' 2); try contradiction;
    [| now subst]. simpl. rewrite (int_same _ _ H2).
  destruct (int a3); [| reflexivity]. simpl.
  destruct (group m 3), (group m' 3); try contradiction;
    [| now subst]. simpl. now rewrite (int_same _ _ H3).
Qed.

Lemma parser_current_year_same now m m' :
  Forall2 same_reading m m' ->
  parser_current_year now m = parser_current_year now m'.
Proof.
  intros H. unfold parser_current_year.
  pose proof (group_same m m' 1 H) as H1.
  pose proof (group_same m m' 2 H) as H2.
  destruct (group m 1), (group m' 1); try contradiction;
    [| now subst]. simpl. rewrite (int_same _ _ H1).
  destruct (int a0); [| reflexivity]. simpl.
  destruct (group m 2), (group m' 2); try contradiction;
    [| now subst]. simpl. now rewrite (int_same _ _ H2).
Qed.

Lemma try_patterns_same ps now s s' :
  Forall (fun pp =>
            Forall (fun a => match a with
                             | Lit l => is_digit l = false
                             | _ => True
                             end) (fst pp)
            /\ forall m m', Forall2 same_reading m m' ->
                            snd pp now m = snd pp now m') ps ->
  same_reading s s' ->
  try_patterns ps now s = try_patterns ps now s'.
Proof.
  intros Hps Hs. induction Hps as [| [pat parse] ps [Hpat Hparse] _ IH];
    [reflexivity |].
  cbn [try_patterns]. simpl in Hpat, Hparse.
  pose proof (search_same pat Hpat s s' Hs) as H.
  destruct (search pat s) as [m |], (search pat s') as [m' |];
    simpl in H; try contradiction; [| exact IH].
  rewrite (Hparse m m' H), IH. reflexivity.
Qed.

(** X19.  [parse_date] does not depend on the script in which the digits
    are written: two texts that differ only by digits of equal value
    (ASCII, full-width, Arabic-Indic, ...) give the same result. *)
Theorem parse_date_any_digit_script :
  forall now s s',
    same_reading s s' -> parse_date now s = parse_date now s'.
Proof.
  intros now s s' Hs. unfold parse_date. apply try_patterns_same; [| exact Hs].
  destruct marks_not_digit as (Hn & Hw & Hi & Hd & Hsl).
  assert (forall (pat : pattern) (parse : parser),
             Forall (fun a => match a with
                              | Lit l => is_digit l = false
                              | _ => True
                              end) pat ->
             (forall m m', Forall2 same_reading m m' ->
                           parse now m = parse now m') ->
             Forall (fun a => match a with
                              | Lit l => is_digit l = false
                              | _ => True
                              end) (fst (pat, parse))
             /\ forall m m', Forall2 same_reading m m' ->
                             snd (pat, parse) now m = snd (pat, parse) now m')
    as Hentry.
  { intros pat parse H1 H2. split; [exact H1 | exact H2]. }
  unfold patterns.
  apply Forall_cons; split.
  { apply Hentry; [| apply parser_full_same].
    unfold pat_full.
    repeat (apply Forall_cons; split); try apply Forall_nil;
      first [exact I | exact Hn | exact Hw | exact Hi]. }
  apply Forall_cons; split.
  { apply Hentry; [| apply parser_current_year_same].
    unfold pat_month_day.
    repeat (apply Forall_cons; split); try apply Forall_nil;
      first [exact I | exact Hw | exact Hi]. }
  apply Forall_cons; split.
  { apply Hentry; [| apply parser_current_year_same].
    unfold pat_dotted.
    repeat (apply Forall_cons; split); try apply Forall_nil;
      first [exact I | exact Hd]. }
  apply Forall_cons; split; [| apply Forall_nil; exact I].
  apply Hentry; [| apply parser_current_year_same].
  unfold pat_slashed.
  repeat (apply Forall_cons; split); try apply Forall_nil;
    first [exact I | exact Hsl].
Qed.

(* ===================================================================== *)
(** * Concrete runs, continued                                            *)
(* ===================================================================== *)

Ltac not_in_text :=
  let H := fresh "H" in
  intros H; cbv in H;
  repeat (destruct H as [H | H]; [discriminate H |]); exact H.

Ltac closed_side :=
  lazymatch goal with
  | |- ~ In _ _ => not_in_text
  | |- forall _, _ => no_match_before
  | |- _ => computed
  end.

Lemma polling_run_shape_witness :
  exists n last,
    (1 <= n <= MAX_RETRIES)%nat
    /\ polling restaurants world_stale_then_fresh MAX_RETRIES RETRY_INTERVAL
       = map (slept restaurants world_stale_then_fresh RETRY_INTERVAL)
           (seq 1 (n - 1)) ++ [last]
    /\ it_attempt last = n.
Proof.
  destruct (polling_run_shape restaurants world_stale_then_fresh
              MAX_RETRIES RETRY_INTERVAL)
    as (n & last & Hn & Hrun & Hlast & _).
  - unfold MAX_RETRIES. lia.
  - exists n, last. split; [exact Hn |]. split; [exact Hrun | exact Hlast].
Defined.

Lemma polling_notifies_once_nonempty_witness :
  [fresh_record] <> []
  /\ exists before,
       polling restaurants world_stale_then_fresh MAX_RETRIES RETRY_INTERVAL
       = before ++ [notified_fresh]
       /\ forall it', In it' before -> it_action it' = Sleep RETRY_INTERVAL.
Proof.
  assert (In notified_fresh
            (polling restaurants world_stale_then_fresh MAX_RETRIES
               RETRY_INTERVAL)) as Hin.
  { assert (polling restaurants world_stale_then_fresh MAX_RETRIES
              RETRY_INTERVAL
            = [ {| it_attempt := 1; it_results := [stale_record];
                   it_action := Sleep 900 |};
                notified_fresh ]) as -> by computed.
    right. left. reflexivity. }
  destruct (polling_notifies_once_nonempty restaurants
              world_stale_then_fresh MAX_RETRIES RETRY_INTERVAL
              notified_fresh [fresh_record] Hin eq_refl)
    as (Hne & _ & Hlast).
  split; [exact Hne | exact Hlast].
Defined.

Lemma main_attempts_and_sleep_witness :
  (length (main configured world_stale_then_fresh) <= 6)%nat
  /\ 0 <= total_sleep (main configured world_stale_then_fresh) <= 4500.
Proof.
  destruct (main_attempts_and_sleep configured world_stale_then_fresh)
    as (_ & Hlen & _ & Hsleep).
  split; [exact Hlen | exact Hsleep].
Defined.

Lemma single_attempt_is_lunch_menu_main_witness :
  map it_action
    (polling restaurants world_stale_then_nothing 1 RETRY_INTERVAL)
  = lunch_menu_main configured (world_stale_then_nothing 1).
Proof.
  apply single_attempt_is_lunch_menu_main. reflexivity.
Defined.

Lemma parse_date_returns_calendar_dates_witness :
  1 <= year (Date 2026 2 5) <= 9999 /\ 1 <= month (Date 2026 2 5) <= 12
  /\ 1 <= day (Date 2026 2 5)
     <= days_in_month (year (Date 2026 2 5)) (month (Date 2026 2 5))
  /\ day (Date 2026 2 5) <= 31.
Proof.
  apply (parse_date_returns_calendar_dates 2026 (text_of "2월 5일")).
  computed.
Defined.

Lemma parse_date_dotted_year_misread_witness :
  parse_date 2026
    (text_of "메뉴 " ++ [50; 48; 49; 50]%N ++ DOT :: text_of "02"
     ++ text_of ".05 점심")
  = Ret (Some (Date 2026 12 2)).
Proof.
  destruct (parse_date_dotted_year_misread 2026 (text_of "메뉴 ")
              50%N 48%N 49%N 50%N (text_of "02") (text_of ".05 점심") 12 2)
    as [_ H]; [closed_side .. |].
  exact H.
Defined.

Lemma scrape_menu_record_consistent_witness :
  r_date textless_record = Some (today_at_check world_ocr_read_fails)
  /\ r_restaurant textless_record = name wang.
Proof.
  assert (scrape_menu wang world_ocr_read_fails = Ret (Some textless_record))
    as Hrec by computed.
  destruct (scrape_menu_record_consistent _ _ _ Hrec)
    as (Hname & _ & _ & _ & _ & _ & Htoday & _).
  split; [apply Htoday; reflexivity | exact Hname].
Defined.


Lemma scrape_all_follows_configuration_witness :
  (length (scrape_all restaurants (world_stale_then_nothing 1))
   <= length restaurants)%nat.
Proof.
  exact (proj1 (proj2 (scrape_all_follows_configuration restaurants
                         (world_stale_then_nothing 1)))).
Defined.

Lemma extract_post_date_strips_witness :
  extract_post_date
    (Some (text_of "  " ++ text_of "2월 5일 점심" ++ text_of " "))
  = Some (text_of "2월 5일 점심")
  /\ scrape_menu wang
       (with_post_title world_ocr_read_fails
          (Ret (extract_post_date (Some (text_of "   ")))))
     = scrape_menu wang (with_post_title world_ocr_read_fails (Ret None)).
Proof.
  destruct extract_post_date_strips as (_ & _ & Hstrip & Hblank).
  split.
  - apply Hstrip; computed.
  - apply Hblank. computed.
Defined.

Lemma post_image_url_clean_witness :
  (~ In RPAREN (text_of "https://a/b.jpg")
   /\ ~ In NEWLINE (text_of "https://a/b.jpg")
   /\ contains (text_of "url(")
        (text_of "background-image: url('https://a/b.jpg'); x") = true)
  /\ post_image_url (Some (text_of "color: red")) = None.
Proof.
  destruct post_image_url_clean as (Hclean & Hnone & _).
  split.
  - apply Hclean. computed.
  - apply Hnone. computed.
Defined.

Lemma post_image_url_round_trip_witness :
  post_image_url
    (Some (text_of "background-image: " ++ text_of "url(" ++ text_of "'"
           ++ text_of "https://k.kakaocdn.net/dn/a/img_xl.jpg"
           ++ text_of "'" ++ RPAREN :: text_of "; width: 100%"))
  = Some (text_of "https://k.kakaocdn.net/dn/a/img_xl.jpg").
Proof.
  apply post_image_url_round_trip; occurrence_side.
Defined.

Lemma profile_image_url_takes_fname_witness :
  profile_image_url (fun g => g)
    (Some (text_of "https://t1/thumb?" ++ text_of "fname="
           ++ text_of "http://dn/img.jpg" ++ []))
  = Some (text_of "http://dn/img.jpg")
  /\ profile_image_url (fun g => g) (Some (text_of "http://dn/img.jpg"))
     = Some (text_of "http://dn/img.jpg").
Proof.
  destruct (profile_image_url_takes_fname (fun g => g))
    as (Hfname & Hplain & _).
  split.
  - apply (Hfname (text_of "https://t1/thumb?") (text_of "http://dn/img.jpg")
             []); occurrence_side.
  - apply Hplain. computed.
Defined.

Lemma mime_subtype_clean_witness :
  mime_subtype (text_of "image") = text_of "jpeg"
  /\ trimmed (mime_subtype (text_of "image/ png ;q=1")) = true.
Proof.
  split.
  - apply (proj1 (proj2 (proj2 (mime_subtype_clean (text_of "image"))))).
    not_in_text.
  - exact (proj1 (proj2 (mime_subtype_clean (text_of "image/ png ;q=1")))).
Defined.

Lemma mime_subtype_round_trip_witness :
  mime_subtype
    (text_of "image" ++ SLASH :: text_of " " ++ text_of "png" ++ text_of " "
     ++ text_of "; charset=binary")
  = text_of "png".
Proof.
  apply mime_subtype_round_trip;
    [closed_side | closed_side | closed_side | closed_side | closed_side |].
  right. exists (text_of " charset=binary"). computed.
Defined.

Lemma attachments_match_today_blocks_witness :
  exists a,
    In a (attachments
            (fun i _ =>
               if (i =? 0)%nat then None
               else Some {| content_type := Some (text_of "image/png; x=1");
                            content := [1; 2; 3]%N |})
            [stale_record; fresh_record; textless_record])
    /\ content_id a = 1%nat.
Proof.
  destruct (attachments_match_today_blocks
              (fun i _ =>
                 if (i =? 0)%nat then None
                 else Some {| content_type := Some (text_of "image/png; x=1");
                              content := [1; 2; 3]%N |})
              [stale_record; fresh_record; textless_record])
    as (_ & Hcomplete & _).
  exact (Hcomplete 1%nat textless_record
           {| content_type := Some (text_of "image/png; x=1");
              content := [1; 2; 3]%N |} eq_refl eq_refl).
Defined.

Lemma notification_parts_split_records_witness :
  In fresh_record (today_menus [stale_record; fresh_record])
  /\ In stale_record (old_menus [stale_record; fresh_record]).
Proof.
  destruct (notification_parts_split_records [stale_record; fresh_record])
    as (_ & Htoday & Hold & _).
  split.
  - apply Htoday. split; [right; left; reflexivity | reflexivity].
  - apply Hold. split; [left; reflexivity | reflexivity].
Defined.

Lemma mains_never_send_empty_digest_witness :
  not_found_shown [fresh_record] = false.
Proof.
  apply (proj1 mains_never_send_empty_digest restaurants
           world_stale_then_fresh MAX_RETRIES RETRY_INTERVAL notified_fresh).
  - assert (polling restaurants world_stale_then_fresh MAX_RETRIES
              RETRY_INTERVAL
            = [ {| it_attempt := 1; it_results := [stale_record];
                   it_action := Sleep 900 |};
                notified_fresh ]) as -> by computed.
    right. left. reflexivity.
  - reflexivity.
Defined.

Lemma parse_date_any_digit_script_witness :
  parse_date 2026 (text_of "２０２６년 ２월 ５일")
  = parse_date 2026 (text_of "2026년 2월 5일").
Proof.
  apply parse_date_any_digit_script.
  match goal with
  | |- same_reading ?a ?b =>
      let a' := eval vm_compute in a in
      let b' := eval vm_compute in b in
      change (Forall2 same_digit a' b')
  end.
  repeat (constructor;
          [first [left; reflexivity | right; split; computed] |]).
  constructor.
Defined.
